(** * Cross-chain order relay: ledger, executor and hub listener

    A shallow embedding of
    - [contracts/OrderProcessor.sol]          (module [Ledger]),
    - [bun-executor-listener/executor.ts]     (module [Executor]),
    - the hub listener ([pollForHubEvents])   (module [Listener]),
    together with the properties of the order life cycle, of the
    correlator and of the pollers. *)

From Stdlib Require Import ZArith Lia.
From Stdlib.Strings Require Import Byte.
From stdpp Require Import base decidable countable gmap sets list strings sorting pretty.

Local Open Scope Z_scope.

(* ===================================================================== *)
(** * The on-chain order ledger ([OrderProcessor.sol])                    *)
(* ===================================================================== *)

Module Ledger.

(** [enum OrderState { NONEXISTENT, OPEN, COMPLETED }] *)
Inductive OrderState := NONEXISTENT | OPEN | COMPLETED.

#[global] Instance OrderState_eq_dec : EqDecision OrderState.
Proof. solve_decision. Defined.

(** [struct OrderInfo]; [address], [bytes32], [uint256] and [uint32] values
    are the integers they denote. *)
Record OrderInfo := mkOrderInfo {
  state : OrderState;
  sourceAccount : Z;
  targetAccount : Z;
  amount : Z;
  rewardAsset : Z;
  confirmationId : Z;
  timestamp : Z;
  nonce : Z;
  networkId : Z
}.

(** The value a Solidity mapping holds at a key never written. *)
Definition zeroOrder : OrderInfo :=
  mkOrderInfo NONEXISTENT 0 0 0 0 0 0 0 0.

Inductive Event :=
| OrderOpened (id destination asset targetAccount amount rewardAsset
               insurance maxReward nonce sourceAccount orderTimestamp : Z)
| OrderCompleted (id target confirmationId amount asset timestamp : Z)
| ReclaimReady (id sourceAccount rewardAsset timestamp : Z).

(** Contract storage: the two mappings. *)
Record Storage := mkStorage {
  authorizedContracts : gmap (Z * Z) bool;
  orders : gmap Z OrderInfo
}.

(** [orders[id]] as Solidity reads it. *)
Definition order_at (st : Storage) (id : Z) : OrderInfo :=
  default zeroOrder (orders st !! id).

(** ** Execution monad: working storage, emitted events, revert *)

Record Frame := mkFrame { store : Storage; emitted : list Event }.

(** A revert carries the frame reached when it was raised, so that one can
    tell whether anything had been written by then; [transact] below throws
    that frame away, as the EVM does. *)
Inductive Outcome (A : Type) :=
| Return (a : A) (f : Frame)
| Revert (reason : string) (f : Frame).
Arguments Return {A} a f.
Arguments Revert {A} reason f.

Definition Exec (A : Type) : Type := Frame → Outcome A.

Definition ret {A} (a : A) : Exec A := λ f, Return a f.

Definition bind {A B} (m : Exec A) (k : A → Exec B) : Exec B :=
  λ f, match m f with
       | Return a f' => k a f'
       | Revert r f' => Revert r f'
       end.

Declare Scope exec_scope.
Delimit Scope exec_scope with exec.
Notation "x <- m ;; k" := (bind m (λ x, k))
  (at level 100, m at next level, right associativity) : exec_scope.
Notation "m ;; k" := (bind m (λ _, k))
  (at level 100, right associativity) : exec_scope.

Definition require (c : bool) (msg : string) : Exec unit :=
  λ f, if c then Return tt f else Revert msg f.

Definition sload_order (id : Z) : Exec OrderInfo :=
  λ f, Return (order_at (store f) id) f.

Definition sstore_order (id : Z) (o : OrderInfo) : Exec unit :=
  λ f, Return tt
    (mkFrame (mkStorage (authorizedContracts (store f))
                        (<[id := o]> (orders (store f))))
             (emitted f)).

Definition sstore_authorized (chainId addr : Z) (b : bool) : Exec unit :=
  λ f, Return tt
    (mkFrame (mkStorage (<[(chainId, addr) := b]> (authorizedContracts (store f)))
                        (orders (store f)))
             (emitted f)).

Definition emit (e : Event) : Exec unit :=
  λ f, Return tt (mkFrame (store f) (emitted f ++ [e])).

(** A value-or-revert lifted into the monad (external view call,
    [abi.decode]). *)
Definition lift {A} (r : string + A) : Exec A :=
  λ f, match r with
       | inl msg => Revert msg f
       | inr a => Return a f
       end.

(** ** Memory words *)

Definition byte_val (b : byte) : Z := Z.of_N (Byte.to_N b).

(** Big-endian value of a run of bytes. *)
Definition be_word (bs : list byte) : Z :=
  fold_left (λ acc b, acc * 256 + byte_val b) bs 0.

(** [mload(add(add(bs, 32), off))]: the 32 bytes of [bs] from offset [off].
    Every use below is guarded by a length check, so the 32 bytes exist. *)
Definition mload (bs : list byte) (off : nat) : Z :=
  be_word (take 32 (drop off bs)).

(** The assembly loop [for { let i := 0 } lt(i, n) { i := add(i, 1) }]
    filling [topicsArray]. *)
Definition split_topics (n : nat) (topics : list byte) : list Z :=
  (λ i, mload topics (i * 32)%nat) <$> seq 0 n.

(** [abi.decode] of a tuple of static types (ABI coder v2, the default of
    [pragma solidity ^0.8.0]): the data must hold one word per component,
    and a [uint32] or [address] word with dirty high bits reverts. *)
Inductive AbiType := t_uint32 | t_address | t_bytes32 | t_uint256.

Definition abi_in_range (t : AbiType) (w : Z) : bool :=
  match t with
  | t_uint32 => w <? 2 ^ 32
  | t_address => w <? 2 ^ 160
  | t_bytes32 | t_uint256 => true
  end.

Definition abi_decode (data : list byte) (tys : list AbiType) : string + list Z :=
  if bool_decide (length data < 32 * length tys)%nat then inl ""%string
  else
    let ws := (λ i, mload data (i * 32)%nat) <$> seq 0 (length tys) in
    if forallb (λ p, abi_in_range p.1 p.2) (zip tys ws) then inr ws
    else inl ""%string.

(** [address(uint160(uint256(w)))] *)
Definition to_address (w : Z) : Z := w mod 2 ^ 160.

Section Contract.

(** [keccak256] over a string literal (EVM builtin). *)
Variable keccak256 : string → Z.

(** [IPolymerProver.validateEvent]: an external view call which either
    reverts or returns [(chainId, emittingContract, topics, data)]. *)
Variable validateEvent : list byte → string + (Z * Z * list byte * list byte).

Definition authorizeSourceContract (chainId contractAddress : Z) (authorized : bool)
  : Exec unit :=
  sstore_authorized chainId contractAddress authorized.

Definition OrderCreated_sig : string :=
  "OrderCreated(bytes32,bytes4,uint32,bytes32,uint256,address,uint256,uint256,uint32,address,uint256)".

Definition Confirmation_sig : string :=
  "Confirmation(bytes32,address,uint256,address,address,bytes32,uint256)".

Definition openOrder (proof : list byte) : Exec unit :=
  (r <- lift (validateEvent proof) ;;
   let '(_, _, topics, unindexedData) := r in
   require (bool_decide (96 ≤ length topics)%nat) "Invalid topics length" ;;
   let topicsArray := split_topics 3 topics in
   let expectedSelector := keccak256 OrderCreated_sig in
   require (bool_decide (topicsArray !!! 0%nat = expectedSelector))
           "Invalid event signature" ;;
   let id := topicsArray !!! 1%nat in
   let destination := topicsArray !!! 2%nat in
   o <- sload_order id ;;
   require (bool_decide (state o = NONEXISTENT)) "Order already exists" ;;
   ws <- lift (abi_decode unindexedData
                 [t_uint32; t_bytes32; t_uint256; t_address; t_uint256;
                  t_uint256; t_uint32; t_address; t_uint256]) ;;
   let asset := ws !!! 0%nat in
   let targetAccount := ws !!! 1%nat in
   let amount := ws !!! 2%nat in
   let rewardAsset := ws !!! 3%nat in
   let insurance := ws !!! 4%nat in
   let maxReward := ws !!! 5%nat in
   let nonce := ws !!! 6%nat in
   let sourceAccount := ws !!! 7%nat in
   let orderTimestamp := ws !!! 8%nat in
   sstore_order id
     {| state := OPEN;
        sourceAccount := sourceAccount;
        targetAccount := targetAccount;
        amount := amount;
        rewardAsset := rewardAsset;
        confirmationId := 0;
        timestamp := orderTimestamp;
        nonce := nonce;
        networkId := destination |} ;;
   emit (OrderOpened id destination asset targetAccount amount rewardAsset
                     insurance maxReward nonce sourceAccount orderTimestamp))%exec.

Definition orderCompleted (proof : list byte) : Exec unit :=
  (r <- lift (validateEvent proof) ;;
   let '(_, _, topics, unindexedData) := r in
   require (bool_decide (128 ≤ length topics)%nat) "Invalid topics length" ;;
   let topicsArray := split_topics 4 topics in
   let expectedSelector := keccak256 Confirmation_sig in
   require (bool_decide (topicsArray !!! 0%nat = expectedSelector))
           "Invalid event signature" ;;
   let id := topicsArray !!! 1%nat in
   let target := to_address (topicsArray !!! 2%nat) in
   o <- sload_order id ;;
   require (bool_decide (state o = OPEN)) "Order not in open state" ;;
   (* [OrderInfo storage order = orders[id]] *)
   order <- sload_order id ;;
   ws <- lift (abi_decode unindexedData
                 [t_uint256; t_address; t_bytes32; t_uint256]) ;;
   let amount_ := ws !!! 0%nat in
   let asset := ws !!! 1%nat in
   let confirmationId_ := ws !!! 2%nat in
   let timestamp_ := ws !!! 3%nat in
   require (bool_decide (amount order = amount_))
           "Amount mismatch between order and confirmation" ;;
   (* the three field writes through the storage pointer *)
   sstore_order id
     {| state := COMPLETED;
        sourceAccount := sourceAccount order;
        targetAccount := targetAccount order;
        amount := amount order;
        rewardAsset := rewardAsset order;
        confirmationId := confirmationId_;
        timestamp := timestamp_;
        nonce := nonce order;
        networkId := networkId order |} ;;
   emit (OrderCompleted id target confirmationId_ amount_ asset timestamp_) ;;
   emit (ReclaimReady id (sourceAccount order) (rewardAsset order) timestamp_))%exec.

(** Read-only queries. *)
Definition isOrderOpen (st : Storage) (id : Z) : bool :=
  bool_decide (state (order_at st id) = OPEN).

Definition isOrderCompleted (st : Storage) (id : Z) : bool :=
  bool_decide (state (order_at st id) = COMPLETED).

Definition getOrderInfo (st : Storage) (id : Z) : OrderInfo := order_at st id.

(** ** Transactions *)

(** The result of a transaction as the chain sees it: on a revert the
    storage is the one before the call and no event is logged. *)
Record Receipt := mkReceipt {
  post : Storage;
  events : list Event;
  reverted : option string
}.

Definition transact (body : Exec unit) (st : Storage) : Receipt :=
  match body (mkFrame st []) with
  | Return _ f => mkReceipt (store f) (emitted f) None
  | Revert r _ => mkReceipt st [] (Some r)
  end.

Inductive Call :=
| CallAuthorize (chainId contractAddress : Z) (authorized : bool)
| CallOpenOrder (proof : list byte)
| CallOrderCompleted (proof : list byte).

Definition body_of (c : Call) : Exec unit :=
  match c with
  | CallAuthorize ch a b => authorizeSourceContract ch a b
  | CallOpenOrder p => openOrder p
  | CallOrderCompleted p => orderCompleted p
  end.

Definition step (st : Storage) (c : Call) : Storage := post (transact (body_of c) st).

Definition run (st : Storage) (cs : list Call) : Storage := foldl step st cs.

End Contract.

(** What the ledger reads of a prover's answer: the revert, or the topics
    and the data; the chain id and the emitting contract are dropped. *)
Definition event_part (r : string + (Z * Z * list byte * list byte))
  : string + (list byte * list byte) :=
  match r with
  | inl msg => inl msg
  | inr (_, _, topics, data) => inr (topics, data)
  end.

(** The observable part of a receipt: revert, events, order records. *)
Definition observable (r : Receipt) : option string * list Event * gmap Z OrderInfo :=
  (reverted r, events r, orders (post r)).

(** Position of a state in the life cycle. *)
Definition rank (s : OrderState) : nat :=
  match s with NONEXISTENT => 0 | OPEN => 1 | COMPLETED => 2 end.

(** One step of the life cycle, or none. *)
Definition lifecycle_step (a b : OrderState) : Prop :=
  a = b ∨ (a = NONEXISTENT ∧ b = OPEN) ∨ (a = OPEN ∧ b = COMPLETED).

(** The fields that are fixed once an order is open. *)
Definition frozen_fields (o : OrderInfo) : Z * Z * Z * Z * Z * Z :=
  (sourceAccount o, targetAccount o, amount o, rewardAsset o, nonce o, networkId o).

End Ledger.

(* ===================================================================== *)
(** * JavaScript values shared by the executor and the listener           *)
(* ===================================================================== *)

Module JS.

(** A decoded event argument as ethers hands it over: a string (hashes,
    addresses, byte strings) or a bigint. *)
Inductive ArgVal := VStr (s : string) | VInt (n : Z).

#[global] Instance ArgVal_eq_dec : EqDecision ArgVal.
Proof. solve_decision. Defined.

#[global] Instance ArgVal_countable : Countable ArgVal.
Proof.
  refine (inj_countable'
            (λ v, match v with VStr s => inl s | VInt n => inr n end)
            (λ x, match x with inl s => VStr s | inr n => VInt n end) _).
  by intros [].
Defined.

(** The result of [Number(v)], kept symbolic: no claim reads it. *)
Inductive JsNumber := NumOfInt (n : Z) | NumOfString (s : string).

Definition Number (v : ArgVal) : JsNumber :=
  match v with VInt n => NumOfInt n | VStr s => NumOfString s end.

(** [v.toString()] *)
Definition toString (v : ArgVal) : string :=
  match v with VStr s => s | VInt n => pretty n end.

(** [String.prototype.toLowerCase] on the ASCII range. *)
Definition lower_ascii (c : Ascii.ascii) : Ascii.ascii :=
  let n := Ascii.nat_of_ascii c in
  if ((65 <=? n) && (n <=? 90))%nat then Ascii.ascii_of_nat (n + 32) else c.

Fixpoint toLowerCase (s : string) : string :=
  match s with
  | EmptyString => EmptyString
  | String c r => String (lower_ascii c) (toLowerCase r)
  end.

(** [s.startsWith(p)] *)
Definition startsWith (s p : string) : bool := String.prefix p s.

(** How a statement list inside [try] ends: normally, or by an exception;
    either way with the module-level state reached so far. *)
Inductive Completion (S : Type) :=
| Normal (s : S)
| Throws (s : S).
Arguments Normal {S} s.
Arguments Throws {S} s.

Definition final {S} (c : Completion S) : S :=
  match c with Normal s | Throws s => s end.

Definition threw {S} (c : Completion S) : bool :=
  match c with Normal _ => false | Throws _ => true end.

(** [try { body } catch (error) { console.error(...) }] *)
Definition try_catch {S} (c : Completion S) : Completion S := Normal (final c).

End JS.

(* ===================================================================== *)
(** * The spoke executor ([executor.ts])                                  *)
(* ===================================================================== *)

Module Executor.
Import JS.

Definition UNICHAIN_ID : Z := 1301.
Definition BASE_ID : Z := 84532.

(** [ethers.Log], with the fields the executor or [parseLog] reads. *)
Record Log := mkLog {
  transactionHash : string;
  blockNumber : Z;
  index : Z;
  topics : list string;
  data : string
}.

Inductive ParseResult :=
| ParseThrows
| ParseNull
| Parsed (args : list ArgVal).

(** The request body posted to the executor API. *)
Record Payload := mkPayload {
  srcChainId : Z;
  srcBlockNumber : Z;
  globalLogIndex : Z;
  destChainId : Z;
  destContractAddress : string;
  method : string;
  gasLimit : Z
}.

(** What [await axios.post(...)] gives back. [execution] is
    [response.data.result.executionResult.success], [None] when that path
    is missing (reading it raises a TypeError). *)
Inductive ApiResult :=
| ApiResponse (success : bool) (execution : option bool)
| ApiAxiosError
| ApiOtherError.

(** Which branch of [callExecutorAPI] reported the outcome. *)
Inductive RelayOutcome :=
| TransactionExecuted
| ExecutionFailed
| ApiCallFailed
| OtherError.

#[global] Instance RelayOutcome_eq_dec : EqDecision RelayOutcome.
Proof. solve_decision. Defined.

Definition accepted (o : RelayOutcome) : bool :=
  bool_decide (o = TransactionExecuted).

(** Module-level state: the two sets, and the requests sent so far with
    their outcome (the executor's only effect on the outside world). *)
Record State := mkState {
  processedTxs : gset string;
  pendingOrderIdsFromUnichain : gset ArgVal;
  relayed : list (Payload * RelayOutcome)
}.

Module Created.
(** [interface OrderCreatedEvent] *)
Record t := mk {
  id : ArgVal;
  destination : string;
  asset : JsNumber;
  targetAccount : ArgVal;
  amount : Z;
  rewardAsset : ArgVal;
  insurance : Z;
  maxReward : Z;
  nonce : JsNumber;
  sourceAccount : ArgVal;
  orderTimestamp : Z
}.
End Created.

Module Confirmation.
(** [interface ConfirmationEvent] *)
Record t := mk {
  id : ArgVal;
  target : ArgVal;
  amount : Z;
  asset : ArgVal;
  sender : ArgVal;
  confirmationId : ArgVal;
  timestamp : Z
}.
End Confirmation.

(** [provider.getLogs] filter. *)
Record Filter := mkFilter {
  fromBlock : Z;
  toBlock : Z;
  address : string;
  filterTopics : list string
}.

(** One chain as a poll sees it: [None] is a rejected RPC call. *)
Record Provider := mkProvider {
  getBlockNumber : option Z;
  getLogs : Filter → option (list Log)
}.

(** [ethers.Contract]: its address and the topic hash of each event of
    its ABI ([iface.getEvent(name)], null when absent). *)
Record Contract := mkContract {
  target : string;
  getEvent : string → option string
}.

(** What one call of [pollForEvents] did. *)
Record PollResult := mkPollResult {
  watermark : Z;
  after : State;
  queried : option Filter;
  delivered : list Log
}.

Definition hub_chainId : Z := 334.
Definition hub_address : string := "0xBf822582b24a0227Dda5d665c1F56B5268D04444".

Definition expectedBaseDestinationHexPrefix : string := "0x62617374".

Section Executor.

(** [new ethers.Interface(abi).parseLog(log)] for the spoke ABI (both
    spokes share it). *)
Variable parseLog : Log → ParseResult.

(** [BigInt(s)] on a string: [None] is the SyntaxError. *)
Variable BigInt_of_string : string → option Z.

(** The executor API: its answer may depend on the requests made before. *)
Variable axios_post : list (Payload * RelayOutcome) → Payload → ApiResult.

(** [BigInt(v.toString())] *)
Definition BigInt (v : ArgVal) : option Z :=
  match v with
  | VInt n => Some n
  | VStr s => BigInt_of_string s
  end.

(** The whole body of [callExecutorAPI] is one [try]/[catch] that only
    logs: the caller gets [undefined] back whatever happened. *)
Definition callExecutorAPI (srcChain blockNo logIndex : Z) (destMethod : string)
    (s : State) : State :=
  let payload :=
    {| srcChainId := srcChain;
       srcBlockNumber := blockNo;
       globalLogIndex := logIndex;
       destChainId := hub_chainId;
       destContractAddress := hub_address;
       method := destMethod;
       gasLimit := 500000 |} in
  let outcome :=
    match axios_post (relayed s) payload with
    | ApiResponse true (Some true) => TransactionExecuted
    | ApiResponse true (Some false) => ExecutionFailed
    | ApiResponse true None => OtherError
    | ApiResponse false _ => ExecutionFailed
    | ApiAxiosError => ApiCallFailed
    | ApiOtherError => OtherError
    end in
  {| processedTxs := processedTxs s;
     pendingOrderIdsFromUnichain := pendingOrderIdsFromUnichain s;
     relayed := relayed s ++ [(payload, outcome)] |}.

Definition add_processed (txHash : string) (s : State) : State :=
  {| processedTxs := {[txHash]} ∪ processedTxs s;
     pendingOrderIdsFromUnichain := pendingOrderIdsFromUnichain s;
     relayed := relayed s |}.

Definition add_pending (k : ArgVal) (s : State) : State :=
  {| processedTxs := processedTxs s;
     pendingOrderIdsFromUnichain := {[k]} ∪ pendingOrderIdsFromUnichain s;
     relayed := relayed s |}.

Definition delete_pending (k : ArgVal) (s : State) : State :=
  {| processedTxs := processedTxs s;
     pendingOrderIdsFromUnichain := pendingOrderIdsFromUnichain s ∖ {[k]};
     relayed := relayed s |}.

(** The object literal of [processOrderCreatedEvent]; [None] when
    building it throws (an index past the end of [args] is a RangeError
    in ethers, a string that is no integer a SyntaxError). *)
Definition mkOrderCreatedEvent (rawDestinationHex : string) (args : list ArgVal)
  : option Created.t :=
  a0 ← args !! 0%nat;
  a2 ← args !! 2%nat;
  a3 ← args !! 3%nat;
  a4 ← args !! 4%nat; amount ← BigInt a4;
  a5 ← args !! 5%nat;
  a6 ← args !! 6%nat; insurance ← BigInt a6;
  a7 ← args !! 7%nat; maxReward ← BigInt a7;
  a8 ← args !! 8%nat;
  a9 ← args !! 9%nat;
  a10 ← args !! 10%nat; orderTimestamp ← BigInt a10;
  Some (Created.mk a0 rawDestinationHex (Number a2) a3 amount a5
                   insurance maxReward (Number a8) a9 orderTimestamp).

Definition mkConfirmationEvent (args : list ArgVal) : option Confirmation.t :=
  a0 ← args !! 0%nat;
  a1 ← args !! 1%nat;
  a2 ← args !! 2%nat; amount ← BigInt a2;
  a3 ← args !! 3%nat;
  a4 ← args !! 4%nat;
  a5 ← args !! 5%nat;
  a6 ← args !! 6%nat; timestamp ← BigInt a6;
  Some (Confirmation.mk a0 a1 amount a3 a4 a5 timestamp).

(** The statements inside the [try] of [processOrderCreatedEvent]. *)
Definition processOrderCreatedEvent_body (log : Log) (s : State) : Completion State :=
  let txHash := transactionHash log in
  let blockNo := blockNumber log in
  let logIndex := index log in
  if bool_decide (txHash ∈ processedTxs s) then Normal s
  else
    let s1 := add_processed txHash s in
    match parseLog log with
    | ParseThrows => Throws s1
    | ParseNull => Normal s1
    | Parsed args =>
      match args !! 1%nat with
      | Some (VStr rawDestinationHex) =>
        if negb (startsWith (toLowerCase rawDestinationHex)
                            expectedBaseDestinationHexPrefix)
        then Normal s1
        else
          match mkOrderCreatedEvent rawDestinationHex args with
          | None => Throws s1
          | Some event =>
            let s2 := add_pending (Created.id event) s1 in
            Normal (callExecutorAPI UNICHAIN_ID blockNo logIndex "openOrder" s2)
          end
      | _ => Throws s1
      end
    end.

Definition processOrderCreatedEvent (log : Log) (s : State) : Completion State :=
  try_catch (processOrderCreatedEvent_body log s).

(** The statements inside the [try] of [processConfirmationEvent]. *)
Definition processConfirmationEvent_body (log : Log) (s : State) : Completion State :=
  let txHash := transactionHash log in
  let blockNo := blockNumber log in
  let logIndex := index log in
  if bool_decide (txHash ∈ processedTxs s) then Normal s
  else
    let s1 := add_processed txHash s in
    match parseLog log with
    | ParseThrows => Throws s1
    | ParseNull => Normal s1
    | Parsed args =>
      match mkConfirmationEvent args with
      | None => Throws s1
      | Some event =>
        if negb (bool_decide (Confirmation.id event ∈ pendingOrderIdsFromUnichain s1))
        then Normal s1
        else
          let s2 := callExecutorAPI BASE_ID blockNo logIndex "orderCompleted" s1 in
          Normal (delete_pending (Confirmation.id event) s2)
      end
    end.

Definition processConfirmationEvent (log : Log) (s : State) : Completion State :=
  try_catch (processConfirmationEvent_body log s).

(** [for (const log of logs) { await processor(log); }]: the logs the
    processor was called on, and how the loop ended. *)
Fixpoint deliver (processor : Log → State → Completion State)
    (logs : list Log) (s : State) : Completion State * list Log :=
  match logs with
  | [] => (Normal s, [])
  | log :: rest =>
    match processor log s with
    | Normal s' =>
      let '(c, done) := deliver processor rest s' in (c, log :: done)
    | Throws s' => (Throws s', [log])
    end
  end.

Definition pollForEvents (provider : Provider) (contract : Contract)
    (eventName : string) (processor : Log → State → Completion State)
    (lastProcessedBlock : Z) (s : State) : PollResult :=
  match getBlockNumber provider with
  | None => mkPollResult lastProcessedBlock s None []
  | Some currentBlock =>
    if bool_decide (currentBlock ≤ lastProcessedBlock)
    then mkPollResult lastProcessedBlock s None []
    else
      match getEvent contract eventName with
      | None => mkPollResult lastProcessedBlock s None []
      | Some topicHash =>
        let filter :=
          {| fromBlock := lastProcessedBlock + 1;
             toBlock := currentBlock;
             address := target contract;
             filterTopics := [topicHash] |} in
        match getLogs provider filter with
        | None => mkPollResult lastProcessedBlock s (Some filter) []
        | Some logs =>
          match deliver processor logs s with
          | (Normal s', done) => mkPollResult currentBlock s' (Some filter) done
          | (Throws s', done) => mkPollResult lastProcessedBlock s' (Some filter) done
          end
        end
      end
  end.

(** The two watermarks [startPolling] keeps in its closure. *)
Record Watermarks := mkWatermarks {
  lastUnichainBlock : Z;
  lastBaseBlock : Z
}.

(** [startPolling] up to the [setInterval]: [None] is [process.exit(1)]. *)
Definition startPolling (unichainProvider baseProvider : Provider) : option Watermarks :=
  u ← getBlockNumber unichainProvider;
  b ← getBlockNumber baseProvider;
  Some (mkWatermarks u b).

(** One run of the [setInterval] callback, taken on its own: a run that
    overlaps the next one (a relay still awaited when the timer fires
    again) is not modelled. The dedup test and [processedTxs.add] have no
    [await] between them, so they are atomic even then. *)
Definition tick (unichainProvider baseProvider : Provider)
    (unichainContract baseContract : Contract)
    (w : Watermarks) (s : State) : Watermarks * PollResult * PollResult :=
  let r1 := pollForEvents unichainProvider unichainContract "OrderCreated"
              processOrderCreatedEvent (lastUnichainBlock w) s in
  let r2 := pollForEvents baseProvider baseContract "Confirmation"
              processConfirmationEvent (lastBaseBlock w) (after r1) in
  (mkWatermarks (watermark r1) (watermark r2), r1, r2).

(** ** Deliveries *)

(** Which processor an event is handed to. *)
Inductive Kind := Creation | Confirm.

Definition process (k : Kind) : Log → State → Completion State :=
  match k with
  | Creation => processOrderCreatedEvent
  | Confirm => processConfirmationEvent
  end.

(** The state after a sequence of deliveries. *)
Definition run (ds : list (Kind * Log)) (s : State) : State :=
  foldl (λ s d, final (process d.1 d.2 s)) s ds.

(** The number of requests sent, while [ds] is delivered from [s], by the
    deliveries of the event with transaction hash [h] and log index [i]. *)
Fixpoint relays_for (h : string) (i : Z) (ds : list (Kind * Log)) (s : State) : nat :=
  match ds with
  | [] => 0
  | (k, log) :: rest =>
    let s' := final (process k log s) in
    ((if bool_decide (transactionHash log = h ∧ index log = i)
      then length (relayed s') - length (relayed s) else 0)
     + relays_for h i rest s')%nat
  end.

(** The destination test of [processOrderCreatedEvent] on decoded
    arguments. *)
Definition destination_matches (args : list ArgVal) : bool :=
  match args !! 1%nat with
  | Some (VStr rawDestinationHex) =>
    startsWith (toLowerCase rawDestinationHex) expectedBaseDestinationHexPrefix
  | _ => false
  end.

Definition relay_request (chain : Z) (log : Log) (destMethod : string) : Payload :=
  {| srcChainId := chain;
     srcBlockNumber := blockNumber log;
     globalLogIndex := index log;
     destChainId := hub_chainId;
     destContractAddress := hub_address;
     method := destMethod;
     gasLimit := 500000 |}.

(** What [processOrderCreatedEvent] does, by cases. *)
Inductive created_effect (log : Log) (s : State) : State → Prop :=
| created_skipped :
    transactionHash log ∈ processedTxs s → created_effect log s s
| created_dropped :
    transactionHash log ∉ processedTxs s →
    (∀ args, parseLog log = Parsed args →
       destination_matches args = false
       ∨ ∃ d, args !! 1%nat = Some (VStr d)
              ∧ mkOrderCreatedEvent d args = None) →
    created_effect log s (add_processed (transactionHash log) s)
| created_relayed args d event o :
    transactionHash log ∉ processedTxs s →
    parseLog log = Parsed args →
    args !! 1%nat = Some (VStr d) →
    destination_matches args = true →
    mkOrderCreatedEvent d args = Some event →
    created_effect log s
      {| processedTxs := {[transactionHash log]} ∪ processedTxs s;
         pendingOrderIdsFromUnichain :=
           {[Created.id event]} ∪ pendingOrderIdsFromUnichain s;
         relayed := relayed s ++ [(relay_request UNICHAIN_ID log "openOrder", o)] |}.

(** What [processConfirmationEvent] does, by cases. *)
Inductive confirmation_effect (log : Log) (s : State) : State → Prop :=
| confirmation_skipped :
    transactionHash log ∈ processedTxs s → confirmation_effect log s s
| confirmation_dropped :
    transactionHash log ∉ processedTxs s →
    (∀ args event, parseLog log = Parsed args →
       mkConfirmationEvent args = Some event →
       Confirmation.id event ∉ pendingOrderIdsFromUnichain s) →
    confirmation_effect log s (add_processed (transactionHash log) s)
| confirmation_relayed args event o :
    transactionHash log ∉ processedTxs s →
    parseLog log = Parsed args →
    mkConfirmationEvent args = Some event →
    Confirmation.id event ∈ pendingOrderIdsFromUnichain s →
    confirmation_effect log s
      {| processedTxs := {[transactionHash log]} ∪ processedTxs s;
         pendingOrderIdsFromUnichain :=
           pendingOrderIdsFromUnichain s ∖ {[Confirmation.id event]};
         relayed := relayed s ++ [(relay_request BASE_ID log "orderCompleted", o)] |}.

End Executor.

(** [a] is not after [b] in (blockNumber, logIndex) order. *)
Definition before (a b : Log) : Prop :=
  blockNumber a < blockNumber b
  ∨ (blockNumber a = blockNumber b ∧ index a ≤ index b).

End Executor.

(* ===================================================================== *)
(** * The hub listener ([pollForHubEvents])                               *)
(* ===================================================================== *)

Module Listener.
Import JS.

Definition CATCH_UP_BLOCK_COUNT : Z := 100.

(** [ethers.EventLog]; [args] is absent on an undecoded log, otherwise it
    maps the names of the event's parameters to their values. *)
Record EventLog := mkEventLog {
  transactionHash : string;
  index : Z;
  blockNumber : Z;
  eventName : string;
  args : option (gmap string ArgVal)
}.

(** The typed events [processHubEvent] prints. *)
Inductive TypedEvent :=
| OrderOpenedEvent (id destination : string) (asset : JsNumber)
    (targetAccount : string) (amount : Z) (rewardAsset : string)
    (insurance maxReward : Z) (nonce : JsNumber) (sourceAccount : string)
    (orderTimestamp : Z)
| OrderCompletedEvent (id target confirmationId : string) (amount : Z)
    (asset : string) (timestamp : Z)
| ReclaimReadyEvent (id sourceAccount rewardAsset : string) (timestamp : Z).

(** Module-level state of the listener, and what it has printed. *)
Record State := mkState {
  lastPolledBlock : Z;
  processedEventIds : gset string;
  console : list TypedEvent
}.

(** The hub chain as one poll sees it. *)
Record Env := mkEnv {
  initialised : bool;                  (* [provider && hubContract] *)
  has_filters : bool;                  (* [hubContract.filters] *)
  getBlockNumber : option Z;
  filter_available : string → bool;    (* [hubContract.filters.X] *)
  queryFilter : string → Z → Z → option (list EventLog)
}.

(** What one call of [pollForHubEvents] did. *)
Record PollResult := mkPollResult {
  after : State;
  queried : list (string * Z * Z);
  delivered : list EventLog
}.

(** The order of the comparator passed to [allEvents.sort]: it is negative
    or zero exactly when [a] may stay before [b]. *)
Definition compareEvents (a b : EventLog) : Z :=
  if bool_decide (blockNumber a ≠ blockNumber b)
  then blockNumber a - blockNumber b
  else index a - index b.

Definition event_le (a b : EventLog) : Prop := compareEvents a b ≤ 0.

#[global] Instance event_le_dec : RelDecision event_le.
Proof. intros a b. unfold event_le. apply _. Defined.

(** [Array.prototype.sort] with that comparator (a stable merge sort). *)
Definition sortEvents (l : list EventLog) : list EventLog :=
  merge_sort event_le l.

Section Listener.

Variable BigInt_of_string : string → option Z.

(** [BigInt(v.toString())] *)
Definition BigInt (v : ArgVal) : option Z :=
  match v with
  | VInt n => Some n
  | VStr s => BigInt_of_string s
  end.

(** [args.name.toString()]: [None] when the parameter is missing. *)
Definition str_arg (a : gmap string ArgVal) (name : string) : option string :=
  toString <$> a !! name.

Definition num_arg (a : gmap string ArgVal) (name : string) : option JsNumber :=
  Number <$> a !! name.

Definition big_arg (a : gmap string ArgVal) (name : string) : option Z :=
  a !! name ≫= BigInt.

Definition mkOrderOpened (a : gmap string ArgVal) : option TypedEvent :=
  id ← str_arg a "id";
  destination ← str_arg a "destination";
  asset ← num_arg a "asset";
  targetAccount ← str_arg a "targetAccount";
  amount ← big_arg a "amount";
  rewardAsset ← str_arg a "rewardAsset";
  insurance ← big_arg a "insurance";
  maxReward ← big_arg a "maxReward";
  nonce ← num_arg a "nonce";
  sourceAccount ← str_arg a "sourceAccount";
  orderTimestamp ← big_arg a "orderTimestamp";
  Some (OrderOpenedEvent id destination asset targetAccount amount rewardAsset
          insurance maxReward nonce sourceAccount orderTimestamp).

Definition mkOrderCompleted (a : gmap string ArgVal) : option TypedEvent :=
  id ← str_arg a "id";
  target ← str_arg a "target";
  confirmationId ← str_arg a "confirmationId";
  amount ← big_arg a "amount";
  asset ← str_arg a "asset";
  timestamp ← big_arg a "timestamp";
  Some (OrderCompletedEvent id target confirmationId amount asset timestamp).

Definition mkReclaimReady (a : gmap string ArgVal) : option TypedEvent :=
  id ← str_arg a "id";
  sourceAccount ← str_arg a "sourceAccount";
  rewardAsset ← str_arg a "rewardAsset";
  timestamp ← big_arg a "timestamp";
  Some (ReclaimReadyEvent id sourceAccount rewardAsset timestamp).

Definition print (e : TypedEvent) (s : State) : State :=
  {| lastPolledBlock := lastPolledBlock s;
     processedEventIds := processedEventIds s;
     console := console s ++ [e] |}.

Definition add_processed (k : string) (s : State) : State :=
  {| lastPolledBlock := lastPolledBlock s;
     processedEventIds := {[k]} ∪ processedEventIds s;
     console := console s |}.

Definition set_lastPolledBlock (b : Z) (s : State) : State :=
  {| lastPolledBlock := b;
     processedEventIds := processedEventIds s;
     console := console s |}.

(** [processHubEvent] has no [try] of its own: a failing conversion
    propagates to the caller. *)
Definition processHubEvent (event : EventLog) (s : State) : Completion State :=
  let eventUniqueId := (transactionHash event +:+ ":" +:+ pretty (index event))%string in
  if bool_decide (eventUniqueId ∈ processedEventIds s) then Normal s
  else
    match args event with
    | None => Normal s
    | Some a =>
      let typed (mk : gmap string ArgVal → option TypedEvent) :=
        match mk a with
        | None => Throws s
        | Some e => Normal (add_processed eventUniqueId (print e s))
        end in
      if bool_decide (eventName event = "OrderOpened") then typed mkOrderOpened
      else if bool_decide (eventName event = "OrderCompleted") then typed mkOrderCompleted
      else if bool_decide (eventName event = "ReclaimReady") then typed mkReclaimReady
      else Normal (add_processed eventUniqueId s)
    end.

(** [for (const event of allEvents) { processHubEvent(event); }] *)
Fixpoint deliver (events : list EventLog) (s : State)
  : Completion State * list EventLog :=
  match events with
  | [] => (Normal s, [])
  | e :: rest =>
    match processHubEvent e s with
    | Normal s' => let '(c, done) := deliver rest s' in (c, e :: done)
    | Throws s' => (Throws s', [e])
    end
  end.

Definition pollForHubEvents (env : Env) (s : State) : PollResult :=
  if negb (initialised env) then mkPollResult s [] []
  else if negb (has_filters env) then mkPollResult s [] []
  else
    match getBlockNumber env with
    | None => mkPollResult s [] []
    | Some currentBlock =>
      let s1 :=
        if bool_decide (lastPolledBlock s = -1)
        then set_lastPolledBlock (Z.max 0 (currentBlock - CATCH_UP_BLOCK_COUNT)) s
        else s in
      if bool_decide (currentBlock ≤ lastPolledBlock s1) then mkPollResult s1 [] []
      else
        let fromBlock := lastPolledBlock s1 + 1 in
        let toBlock := currentBlock in
        if negb (filter_available env "OrderOpened"
                 && filter_available env "OrderCompleted"
                 && filter_available env "ReclaimReady")
        then mkPollResult s1 [] []
        else
          let names := ["OrderOpened"; "OrderCompleted"; "ReclaimReady"]%string in
          let asked := (λ n, (n, fromBlock, toBlock)) <$> names in
          match mapM (λ n, queryFilter env n fromBlock toBlock) names with
          | None => mkPollResult s1 asked []
          | Some eventArrays =>
            let allEvents := concat eventArrays in
            match deliver (sortEvents allEvents) s1 with
            | (Normal s2, done) =>
              mkPollResult (set_lastPolledBlock toBlock s2) asked done
            | (Throws s2, done) => mkPollResult s2 asked done
            end
          end
    end.

(** [startHubListener] once the provider and the contract exist: [None]
    when the connection test or the height query fails (a retry is
    scheduled and nothing else happens). *)
Definition startHubListener (getNetwork_ok : bool) (env : Env) (s : State)
  : option PollResult :=
  if negb getNetwork_ok then None
  else
    currentBlock ← getBlockNumber env;
    let s1 := set_lastPolledBlock (Z.max 0 (currentBlock - CATCH_UP_BLOCK_COUNT)) s in
    Some (pollForHubEvents env s1).

End Listener.

(** The state the module starts in. *)
Definition initial : State :=
  {| lastPolledBlock := -1; processedEventIds := ∅; console := [] |}.

(** The three event filters a poll queries. *)
Definition hub_filters : list string :=
  ["OrderOpened"; "OrderCompleted"; "ReclaimReady"]%string.

(** [a] is not after [b] in (blockNumber, logIndex) order. *)
Definition before (a b : EventLog) : Prop :=
  blockNumber a < blockNumber b
  ∨ (blockNumber a = blockNumber b ∧ index a ≤ index b).

End Listener.

(* ===================================================================== *)
(** * Sample data                                                         *)
(* ===================================================================== *)

Module Samples.

(** ** Ledger *)

(** A stand-in for [keccak256], enough to tell the two signatures apart. *)
Definition keccak (s : string) : Z := Z.of_nat (String.length s).

Definition byte_of (z : Z) : byte :=
  default Byte.x00 (Byte.of_N (Z.to_N (z mod 256))).

(** The 32-byte big-endian encoding of [z]. *)
Definition word (z : Z) : list byte :=
  (λ i, byte_of (z / 256 ^ Z.of_nat (31 - i))) <$> seq 0 32.

(** A prover for the examples: a proof is the number of topics in one byte,
    then the topics, then the data; it attributes every event to
    [(chain, emitter)]. *)
Definition prover (chain emitter : Z) (proof : list byte)
  : string + (Z * Z * list byte * list byte) :=
  match proof with
  | [] => inl "empty proof"%string
  | n :: rest =>
    let k := (Z.to_nat (Ledger.byte_val n) * 32)%nat in
    inr (chain, emitter, take k rest, drop k rest)
  end.

(** Proof of [OrderCreated(id, "bast", asset 1, target 2, amount, reward 4,
    insurance 5, maxReward 6, nonce 7, source 8, timestamp 9)]. *)
Definition created_proof (id amount : Z) : list byte :=
  byte_of 3 ::
  concat (word <$> [keccak Ledger.OrderCreated_sig; id; 0x62617374;
                    1; 2; amount; 4; 5; 6; 7; 8; 9]).

(** Proof of [Confirmation(id, target 2, amount, asset 3, sender 8,
    confirmationId 11, timestamp 12)]. *)
Definition confirmation_proof (id amount : Z) : list byte :=
  byte_of 4 ::
  concat (word <$> [keccak Ledger.Confirmation_sig; id; 2; 8;
                    amount; 3; 11; 12]).

Definition empty_storage : Ledger.Storage := Ledger.mkStorage ∅ ∅.

(** Order [0xAA] opened with amount 100. *)
Definition opened_storage : Ledger.Storage :=
  Ledger.step keccak (prover 1301 7) empty_storage
    (Ledger.CallOpenOrder (created_proof 0xAA 100)).

(** The same orders, with a source contract authorized. *)
Definition authorized_storage : Ledger.Storage :=
  Ledger.step keccak (prover 1301 7) opened_storage
    (Ledger.CallAuthorize 1301 7 true).

(** ** Executor *)

(** A decoder for the examples: the topics of a log are the event name and
    its indexed arguments. *)
Definition created_args (id dest : string) : list JS.ArgVal :=
  [JS.VStr id; JS.VStr dest; JS.VInt 1; JS.VStr "0x02"; JS.VInt 100;
   JS.VStr "0x04"; JS.VInt 5; JS.VInt 6; JS.VInt 7; JS.VStr "0x08"; JS.VInt 9].

Definition confirmation_args (id target sender : string) : list JS.ArgVal :=
  [JS.VStr id; JS.VStr target; JS.VInt 100; JS.VStr "0x03"; JS.VStr sender;
   JS.VStr "0x0b"; JS.VInt 12].

Definition parse (log : Executor.Log) : Executor.ParseResult :=
  match Executor.topics log with
  | [sig; id; dest] =>
    if bool_decide (sig = "OrderCreated"%string)
    then Executor.Parsed (created_args id dest)
    else Executor.ParseNull
  | [sig; id; target; sender] =>
    if bool_decide (sig = "Confirmation"%string)
    then Executor.Parsed (confirmation_args id target sender)
    else Executor.ParseNull
  | _ => Executor.ParseNull
  end.

Definition no_BigInt : string → option Z := λ _, None.

(** An executor API that accepts every request, and one that is unreachable. *)
Definition api_up : list (Executor.Payload * Executor.RelayOutcome) →
    Executor.Payload → Executor.ApiResult :=
  λ _ _, Executor.ApiResponse true (Some true).

Definition api_down : list (Executor.Payload * Executor.RelayOutcome) →
    Executor.Payload → Executor.ApiResult :=
  λ _ _, Executor.ApiAxiosError.

Definition created_log (tx : string) (block idx : Z) (id dest : string) : Executor.Log :=
  Executor.mkLog tx block idx ["OrderCreated"; id; dest]%string "".

Definition confirmation_log (tx : string) (block idx : Z) (id : string) : Executor.Log :=
  Executor.mkLog tx block idx ["Confirmation"; id; "0x02"; "0x08"]%string "".

Definition fresh : Executor.State := Executor.mkState ∅ ∅ [].

Definition first_creation : Executor.Log :=
  created_log "0xt1" 10 0 "0xAA" "0x62617374".

(** Order [0xAA] seen on Unichain and relayed. *)
Definition pending_AA : Executor.State :=
  JS.final (Executor.processOrderCreatedEvent parse no_BigInt api_up
              first_creation fresh).

Definition second_creation : Executor.Log :=
  created_log "0xt3" 11 0 "0xAA" "0x62617374".

Definition elsewhere_creation : Executor.Log :=
  created_log "0xt4" 12 0 "0xCC" "0x6f707469".

Definition confirmation_AA : Executor.Log :=
  confirmation_log "0xt2" 20 0 "0xAA".

Definition event_AA : Executor.Created.t :=
  Executor.Created.mk (JS.VStr "0xAA") "0x62617374" (JS.NumOfInt 1)
    (JS.VStr "0x02") 100 (JS.VStr "0x04") 5 6 (JS.NumOfInt 7) (JS.VStr "0x08") 9.

Definition confirmed_AA : Executor.Confirmation.t :=
  Executor.Confirmation.mk (JS.VStr "0xAA") (JS.VStr "0x02") 100 (JS.VStr "0x03")
    (JS.VStr "0x08") (JS.VStr "0x0b") 12.

Definition spoke : Executor.Contract :=
  Executor.mkContract "0xCEE0" (λ _, Some "0xtopic"%string).

(** A chain at height [h] whose log source answers [logs] to any query. *)
Definition chain (h : Z) (logs : list Executor.Log) : Executor.Provider :=
  Executor.mkProvider (Some h) (λ _, Some logs).

Definition late_log : Executor.Log := created_log "0xa5" 5 0 "0x01" "0x62617374".
Definition early_log : Executor.Log := created_log "0xb3" 3 0 "0x02" "0x62617374".

(** A poll over a batch of one confirmation, with the executor API
    unreachable. *)
Definition failed_poll : Executor.PollResult :=
  Executor.pollForEvents (chain 20 [confirmation_AA]) spoke "Confirmation"
    (Executor.processConfirmationEvent parse no_BigInt api_down) 10 pending_AA.

(** A poll whose log source answers out of order. *)
Definition unsorted_poll : Executor.PollResult :=
  Executor.pollForEvents (chain 5 [late_log; early_log]) spoke "OrderCreated"
    (Executor.processOrderCreatedEvent parse no_BigInt api_up) 0 fresh.

(** The first tick of an executor started at height 1000, the chains still
    being at that height. *)
Definition first_tick
  : Executor.Watermarks * Executor.PollResult * Executor.PollResult :=
  Executor.tick parse no_BigInt api_up (chain 1000 []) (chain 1000 [])
    spoke spoke (Executor.mkWatermarks 1000 1000) fresh.

(** ** Listener *)

Definition hub_log (tx : string) (idx block : Z) (name : string) : Listener.EventLog :=
  Listener.mkEventLog tx idx block name None.

Definition hub_history : list Listener.EventLog :=
  [hub_log "0xh3" 0 990 "OrderOpened"; hub_log "0xh1" 1 950 "OrderOpened";
   hub_log "0xh0" 0 850 "OrderOpened"; hub_log "0xh2" 0 950 "OrderCompleted"].

(** A hub at height [h] whose log source holds [hub_history]. *)
Definition hub (h : Z) : Listener.Env :=
  Listener.mkEnv true true (Some h) (λ _, true)
    (λ n f t, Some (filter (λ e, Listener.eventName e = n
                                 ∧ f ≤ Listener.blockNumber e ≤ t) hub_history)).
End Samples.

(* ===================================================================== *)
(** * Notions used to state further properties                            *)
(* ===================================================================== *)

Module Derived.

(** ** Ledger *)

(** The storage of a freshly deployed contract. *)
Definition genesis : Ledger.Storage := Ledger.mkStorage ∅ ∅.

(** The types [openOrder] and [orderCompleted] decode the data with. *)
Definition created_types : list Ledger.AbiType :=
  [Ledger.t_uint32; Ledger.t_bytes32; Ledger.t_uint256; Ledger.t_address;
   Ledger.t_uint256; Ledger.t_uint256; Ledger.t_uint32; Ledger.t_address;
   Ledger.t_uint256].

Definition confirmation_types : list Ledger.AbiType :=
  [Ledger.t_uint256; Ledger.t_address; Ledger.t_bytes32; Ledger.t_uint256].

(** The record [openOrder] stores for topics and decoded words. *)
Definition opened_record (topics : list byte) (ws : list Z) : Ledger.OrderInfo :=
  Ledger.mkOrderInfo Ledger.OPEN (ws !!! 7%nat) (ws !!! 1%nat) (ws !!! 2%nat)
    (ws !!! 3%nat) 0 (ws !!! 8%nat) (ws !!! 6%nat) (Ledger.mload topics 64).

(** The event [openOrder] logs. *)
Definition opened_event (topics : list byte) (ws : list Z) : Ledger.Event :=
  Ledger.OrderOpened (Ledger.mload topics 32) (Ledger.mload topics 64)
    (ws !!! 0%nat) (ws !!! 1%nat) (ws !!! 2%nat) (ws !!! 3%nat) (ws !!! 4%nat)
    (ws !!! 5%nat) (ws !!! 6%nat) (ws !!! 7%nat) (ws !!! 8%nat).

(** The record [orderCompleted] leaves for a stored order and decoded words. *)
Definition completed_record (order : Ledger.OrderInfo) (ws : list Z) : Ledger.OrderInfo :=
  Ledger.mkOrderInfo Ledger.COMPLETED (Ledger.sourceAccount order)
    (Ledger.targetAccount order) (Ledger.amount order) (Ledger.rewardAsset order)
    (ws !!! 2%nat) (ws !!! 3%nat) (Ledger.nonce order) (Ledger.networkId order).

(** The two events [orderCompleted] logs, in order. *)
Definition completed_events (topics : list byte) (order : Ledger.OrderInfo)
    (ws : list Z) : list Ledger.Event :=
  [Ledger.OrderCompleted (Ledger.mload topics 32)
     (Ledger.to_address (Ledger.mload topics 64)) (ws !!! 2%nat) (ws !!! 0%nat)
     (ws !!! 1%nat) (ws !!! 3%nat);
   Ledger.ReclaimReady (Ledger.mload topics 32) (Ledger.sourceAccount order)
     (Ledger.rewardAsset order) (ws !!! 3%nat)].

(** The checks of [openOrder], on the storage [st] and a proof whose
    validated topics and data are [topics] and [data], decoded to [ws]. *)
Definition opens (keccak256 : string → Z)
    (validateEvent : list byte → string + (Z * Z * list byte * list byte))
    (st : Ledger.Storage) (proof topics data : list byte) (ws : list Z) : Prop :=
  (∃ c e, validateEvent proof = inr (c, e, topics, data))
  ∧ (96 ≤ length topics)%nat
  ∧ Ledger.mload topics 0 = keccak256 Ledger.OrderCreated_sig
  ∧ Ledger.state (Ledger.order_at st (Ledger.mload topics 32)) = Ledger.NONEXISTENT
  ∧ Ledger.abi_decode data created_types = inr ws.

(** The checks of [orderCompleted]. *)
Definition completes (keccak256 : string → Z)
    (validateEvent : list byte → string + (Z * Z * list byte * list byte))
    (st : Ledger.Storage) (proof topics data : list byte) (ws : list Z) : Prop :=
  (∃ c e, validateEvent proof = inr (c, e, topics, data))
  ∧ (128 ≤ length topics)%nat
  ∧ Ledger.mload topics 0 = keccak256 Ledger.Confirmation_sig
  ∧ Ledger.state (Ledger.order_at st (Ledger.mload topics 32)) = Ledger.OPEN
  ∧ Ledger.abi_decode data confirmation_types = inr ws
  ∧ Ledger.amount (Ledger.order_at st (Ledger.mload topics 32)) = ws !!! 0%nat.

(** The invariant of the records of a ledger grown from [genesis]: a
    NONEXISTENT record is all zero, and an OPEN one has no confirmation id. *)
Definition tidy (st : Ledger.Storage) : Prop :=
  ∀ id,
    (Ledger.state (Ledger.order_at st id) = Ledger.NONEXISTENT →
     Ledger.order_at st id = Ledger.zeroOrder)
    ∧ (Ledger.state (Ledger.order_at st id) = Ledger.OPEN →
       Ledger.confirmationId (Ledger.order_at st id) = 0).

(** What a call does to [authorizedContracts] if only
    [authorizeSourceContract] writes it. *)
Definition apply_authorize (m : gmap (Z * Z) bool) (c : Ledger.Call)
  : gmap (Z * Z) bool :=
  match c with
  | Ledger.CallAuthorize chainId contractAddress authorized =>
    <[(chainId, contractAddress) := authorized]> m
  | _ => m
  end.

(** ** Listener *)

(** The key [processHubEvent] deduplicates by. *)
Definition eventUniqueId (e : Listener.EventLog) : string :=
  (Listener.transactionHash e +:+ ":" +:+ pretty (Listener.index e))%string.

(** The conversion [processHubEvent] applies to the arguments of an event
    of a given name, if it prints events of that name at all. *)
Definition printer (BigInt_of_string : string → option Z) (name : string)
  : option (gmap string JS.ArgVal → option Listener.TypedEvent) :=
  if bool_decide (name = "OrderOpened"%string)
  then Some (Listener.mkOrderOpened BigInt_of_string)
  else if bool_decide (name = "OrderCompleted"%string)
  then Some (Listener.mkOrderCompleted BigInt_of_string)
  else if bool_decide (name = "ReclaimReady"%string)
  then Some (Listener.mkReclaimReady BigInt_of_string)
  else None.

(** The watermark a poll works with: the stored one, or the catch-up
    start when none is stored yet. *)
Definition effective (currentBlock : Z) (s : Listener.State) : Listener.State :=
  if bool_decide (Listener.lastPolledBlock s = -1)
  then Listener.set_lastPolledBlock
         (Z.max 0 (currentBlock - Listener.CATCH_UP_BLOCK_COUNT)) s
  else s.

End Derived.

(* ===================================================================== *)
(** * The command-line scripts (proof request and relay by hand)          *)
(* ===================================================================== *)

Module Scripts.

(** ** Waiting for the proof *)

(** [response.data.result] of a [log_queryProof] answer. *)
Record ProofResult := mkProofResult {
  status : option string;
  proof : option string
}.

(** What [await axios.post(... log_queryProof ...)] gives: an exception, or
    a response whose [data.result] may be missing. *)
Inductive QueryResult :=
| QueryThrows
| QueryAnswer (result : option ProofResult).

(** [proofResponse?.data?.result?.proof] when it is truthy; [proofResponse]
    is [None] while still undefined. *)
Definition proof_of (proofResponse : option (option ProofResult)) : option string :=
  result ← proofResponse;
  r ← result;
  p ← proof r;
  if bool_decide (p = ""%string) then None else Some p.

Definition maxAttempts : nat := 30.

(** The [while] loop, with [remaining = maxAttempts - attempts]; [query n]
    is the answer to the [n]-th query. A query that throws leaves
    [proofResponse] as it was. *)
Fixpoint queryLoop (query : nat → QueryResult) (remaining attempts : nat)
    (proofResponse : option (option ProofResult))
  : option (option ProofResult) * nat :=
  match proof_of proofResponse with
  | Some _ => (proofResponse, attempts)
  | None =>
    match remaining with
    | O => (proofResponse, attempts)
    | S remaining' =>
      let attempts' := S attempts in
      let proofResponse' :=
        match query attempts' with
        | QueryThrows => proofResponse
        | QueryAnswer result => Some result
        end in
      match proof_of proofResponse' with
      | Some _ => (proofResponse', attempts')
      | None => queryLoop query remaining' attempts' proofResponse'
      end
    end
  end.

(** The loop and the test after it: the proof and the number of queries
    made, or the error thrown. *)
Definition waitForProof (query : nat → QueryResult) : string + (string * nat) :=
  let '(proofResponse, attempts) := queryLoop query maxAttempts 0 None in
  match proof_of proofResponse with
  | Some p => inr (p, attempts)
  | None => inl "Failed to get proof after maximum attempts"%string
  end.

(** The proof a single answer carries. *)
Definition answer_proof (q : QueryResult) : option string :=
  match q with
  | QueryThrows => None
  | QueryAnswer result => proof_of (Some result)
  end.

(** ** Looking up the RPC URL *)

(** [process.env[k]] when it is truthy (set and not empty). *)
Definition env_get (env : gmap string string) (k : string) : option string :=
  v ← env !! k;
  if bool_decide (v = ""%string) then None else Some v.

(** A chain id as [parseInt] gives it: an integer, or NaN. *)
Definition number_to_string (n : option Z) : string :=
  match n with
  | Some z => pretty z
  | None => "NaN"
  end.

(** [s.replace(c, d)] with a string pattern: the first occurrence only. *)
Fixpoint replace_first (c d : Ascii.ascii) (s : string) : string :=
  match s with
  | EmptyString => EmptyString
  | String a r =>
    if bool_decide (a = c) then String d r else String a (replace_first c d r)
  end.

(** [s.replace(/c/g, d)]: every occurrence. *)
Fixpoint replace_all (c d : Ascii.ascii) (s : string) : string :=
  match s with
  | EmptyString => EmptyString
  | String a r =>
    String (if bool_decide (a = c) then d else a) (replace_all c d r)
  end.

(** The characters [_] and [-]. *)
Definition underscore : Ascii.ascii := Ascii.ascii_of_nat 95.
Definition hyphen : Ascii.ascii := Ascii.ascii_of_nat 45.

Definition possibleEnvVars (chainName : string) : list string :=
  [(chainName +:+ "_RPC")%string;
   (replace_first underscore hyphen chainName +:+ "_RPC")%string;
   (replace_all hyphen underscore chainName +:+ "_RPC")%string].

Definition directEnvVar (chainId : option Z) : string :=
  ("CHAIN_" +:+ number_to_string chainId +:+ "_RPC")%string.

Inductive RpcError :=
| UnknownChainId (chainId : option Z)
| MissingRpcUrl (chainId : option Z) (tried : list string).

(** [for (const envVar of possibleEnvVars) if (process.env[envVar]) return
    process.env[envVar]] *)
Fixpoint first_set (env : gmap string string) (envVars : list string)
  : option string :=
  match envVars with
  | [] => None
  | envVar :: rest =>
    match env_get env envVar with
    | Some url => Some url
    | None => first_set env rest
    end
  end.

(** [getRpcUrl], over the script's [CHAIN_ID_MAP] and the environment. *)
Definition getRpcUrl (CHAIN_ID_MAP : gmap Z string) (env : gmap string string)
    (chainId : option Z) : RpcError + string :=
  match env_get env (directEnvVar chainId) with
  | Some url => inr url
  | None =>
    match chainId ≫= (CHAIN_ID_MAP !!.) with
    | None => inl (UnknownChainId chainId)
    | Some chainName =>
      match first_set env (possibleEnvVars chainName) with
      | Some url => inr url
      | None => inl (MissingRpcUrl chainId (possibleEnvVars chainName))
      end
    end
  end.

(** [CHAIN_ID_MAP] of the proof-request script. *)
Definition CHAIN_ID_MAP_request : gmap Z string :=
  list_to_map
    [(1, "ETHEREUM"); (5, "ETHEREUM_GOERLI"); (11155111, "ETHEREUM_SEPOLIA");
     (137, "POLYGON"); (80001, "POLYGON_MUMBAI"); (42161, "ARBITRUM");
     (421613, "ARBITRUM_GOERLI"); (421614, "ARBITRUM_SEPOLIA"); (10, "OPTIMISM");
     (420, "OPTIMISM_GOERLI"); (43114, "AVALANCHE"); (43113, "AVALANCHE_FUJI");
     (56, "BSC"); (97, "BSC_TESTNET"); (8453, "BASE"); (84531, "BASE_GOERLI");
     (84532, "BASE_SEPOLIA")]%string.

(** [CHAIN_ID_MAP] of [completeOrder.js]. *)
Definition CHAIN_ID_MAP_complete : gmap Z string :=
  <[334 := "T3RN"%string]> (<[1301 := "UNICHAIN_SEPOLIA"%string]> CHAIN_ID_MAP_request).

End Scripts.

(* ===================================================================== *)
(** * More sample data                                                    *)
(* ===================================================================== *)

Module MoreSamples.
Import Samples.

(** ** Ledger *)

(** What the sample prover makes of the two sample proofs for [0xAA]. *)
Definition created_topics : list byte := take 96 (drop 1 (created_proof 0xAA 100)).
Definition created_data : list byte := drop 97 (created_proof 0xAA 100).
Definition created_words : list Z := [1; 2; 100; 4; 5; 6; 7; 8; 9].

Definition confirmation_topics : list byte :=
  take 128 (drop 1 (confirmation_proof 0xAA 100)).
Definition confirmation_data : list byte := drop 129 (confirmation_proof 0xAA 100).
Definition confirmation_words : list Z := [100; 3; 11; 12].

(** Order [0xAA] opened and completed. *)
Definition completed_storage : Ledger.Storage :=
  Ledger.step keccak (prover 84532 9) opened_storage
    (Ledger.CallOrderCompleted (confirmation_proof 0xAA 100)).

Definition later_calls : list Ledger.Call :=
  [Ledger.CallOpenOrder (created_proof 0xAA 5);
   Ledger.CallOrderCompleted (confirmation_proof 0xAA 100);
   Ledger.CallAuthorize 1301 7 true].

(** ** Executor *)

Definition orphan_confirmation : Executor.Log := confirmation_log "0xt9" 30 0 "0xBB".

Definition orphan_event : Executor.Confirmation.t :=
  Executor.Confirmation.mk (JS.VStr "0xBB") (JS.VStr "0x02") 100 (JS.VStr "0x03")
    (JS.VStr "0x08") (JS.VStr "0x0b") 12.

Definition late_creation : Executor.Log :=
  created_log "0xt8" 31 0 "0xBB" "0x62617374".

(** A confirmation logged by the transaction of [first_creation]. *)
Definition same_transaction_confirmation : Executor.Log :=
  confirmation_log "0xt1" 10 1 "0xAA".

(** ** Listener *)

Definition reclaim_args : gmap string JS.ArgVal :=
  {[ "id"%string := JS.VStr "0xAA";
     "sourceAccount"%string := JS.VStr "0x08";
     "rewardAsset"%string := JS.VStr "0x04";
     "timestamp"%string := JS.VInt 12 ]}.

Definition reclaim_printed : Listener.TypedEvent :=
  Listener.ReclaimReadyEvent "0xAA" "0x08" "0x04" 12.

(** Two ReclaimReady events of one transaction, and one whose arguments
    lack the timestamp. *)
Definition reclaim_0 : Listener.EventLog :=
  Listener.mkEventLog "0xh9" 0 995 "ReclaimReady" (Some reclaim_args).
Definition reclaim_1 : Listener.EventLog :=
  Listener.mkEventLog "0xh9" 1 995 "ReclaimReady" (Some reclaim_args).
Definition reclaim_broken : Listener.EventLog :=
  Listener.mkEventLog "0xh7" 0 996 "ReclaimReady"
    (Some (delete "timestamp"%string reclaim_args)).

Definition after_reclaim_0 : Listener.State :=
  JS.final (Listener.processHubEvent no_BigInt reclaim_0 Listener.initial).

(** The answers of [hub 1000] to the three queries over blocks 901 to 1000. *)
Definition hub_answers : list (list Listener.EventLog) :=
  [[hub_log "0xh3" 0 990 "OrderOpened"; hub_log "0xh1" 1 950 "OrderOpened"];
   [hub_log "0xh2" 0 950 "OrderCompleted"];
   []].

(** ** Scripts *)

(** A proof oracle that fails once, is pending twice and then answers. *)
Definition slow_oracle (n : nat) : Scripts.QueryResult :=
  match n with
  | 1%nat => Scripts.QueryThrows
  | 2%nat | 3%nat =>
    Scripts.QueryAnswer (Some (Scripts.mkProofResult (Some "pending"%string) None))
  | _ =>
    Scripts.QueryAnswer
      (Some (Scripts.mkProofResult (Some "complete"%string) (Some "cHJvb2Y="%string)))
  end.

End MoreSamples.

(* ===================================================================== *)
(** * Properties of the ledger                                            *)
(* ===================================================================== *)

Module LedgerProofs.
Import Ledger.

Section Facts.

Variable keccak256 : string → Z.
Variable validateEvent : list byte → string + (Z * Z * list byte * list byte).

Abbreviation openOrder := (openOrder keccak256 validateEvent).
Abbreviation orderCompleted := (orderCompleted keccak256 validateEvent).

Lemma split_topics_3 topics :
  split_topics 3 topics = [mload topics 0; mload topics 32; mload topics 64].
Proof. reflexivity. Qed.

Lemma split_topics_4 topics :
  split_topics 4 topics =
  [mload topics 0; mload topics 32; mload topics 64; mload topics 96].
Proof. reflexivity. Qed.

(** Unfold the monad and split on every test of a body. *)
Ltac run_body :=
  unfold Ledger.openOrder, Ledger.orderCompleted, bind, lift, require,
    sload_order, sstore_order, emit in *;
  repeat (simpl in *; case_match; simplify_eq; try done).

(** Every revert of [openOrder] is raised on the frame it started from. *)
Lemma openOrder_revert_frame proof f r f' :
  openOrder proof f = Revert r f' → f' = f.
Proof. intros H. run_body. Qed.

Lemma orderCompleted_revert_frame proof f r f' :
  orderCompleted proof f = Revert r f' → f' = f.
Proof. intros H. run_body. Qed.

(** What a successful [openOrder] did. *)
Lemma openOrder_return proof f u f' :
  openOrder proof f = Return u f' →
  ∃ c e topics data ws,
    validateEvent proof = inr (c, e, topics, data) ∧
    (96 ≤ length topics)%nat ∧
    mload topics 0 = keccak256 OrderCreated_sig ∧
    state (order_at (store f) (mload topics 32)) = NONEXISTENT ∧
    abi_decode data [t_uint32; t_bytes32; t_uint256; t_address; t_uint256;
                     t_uint256; t_uint32; t_address; t_uint256] = inr ws ∧
    f' = mkFrame
           (mkStorage (authorizedContracts (store f))
              (<[mload topics 32 :=
                   mkOrderInfo OPEN (ws !!! 7%nat) (ws !!! 1%nat) (ws !!! 2%nat)
                     (ws !!! 3%nat) 0 (ws !!! 8%nat) (ws !!! 6%nat)
                     (mload topics 64)]> (orders (store f))))
           (emitted f ++
            [OrderOpened (mload topics 32) (mload topics 64) (ws !!! 0%nat)
               (ws !!! 1%nat) (ws !!! 2%nat) (ws !!! 3%nat) (ws !!! 4%nat)
               (ws !!! 5%nat) (ws !!! 6%nat) (ws !!! 7%nat) (ws !!! 8%nat)]).
Proof.
  intros H.
  unfold Ledger.openOrder, bind, lift, require, sload_order, sstore_order, emit in H.
  destruct (validateEvent proof) as [msg|[[[c e] topics] data]]; [done|].
  simpl in H.
  case_bool_decide as Hlen; [|done].
  case_bool_decide as Hsel; [|done]. simpl in H.
  case_bool_decide as Hst; [|done].
  destruct (abi_decode data _) as [msg|ws] eqn:Hdec; [done|].
  simpl in H. simplify_eq.
  by exists c, e, topics, data, ws.
Qed.

(** What a successful [orderCompleted] did: it rewrote an OPEN record,
    touching only its state, confirmation id and timestamp. *)
Lemma orderCompleted_return proof f u f' :
  orderCompleted proof f = Return u f' →
  ∃ c e topics data ws,
    let id := mload topics 32 in
    let order := order_at (store f) id in
    validateEvent proof = inr (c, e, topics, data) ∧
    (128 ≤ length topics)%nat ∧
    mload topics 0 = keccak256 Confirmation_sig ∧
    state order = OPEN ∧
    abi_decode data [t_uint256; t_address; t_bytes32; t_uint256] = inr ws ∧
    amount order = ws !!! 0%nat ∧
    f' = mkFrame
           (mkStorage (authorizedContracts (store f))
              (<[id :=
                   mkOrderInfo COMPLETED (sourceAccount order) (targetAccount order)
                     (amount order) (rewardAsset order) (ws !!! 2%nat)
                     (ws !!! 3%nat) (nonce order) (networkId order)]>
                 (orders (store f))))
           ((emitted f ++
             [OrderCompleted id (to_address (mload topics 64)) (ws !!! 2%nat)
                (ws !!! 0%nat) (ws !!! 1%nat) (ws !!! 3%nat)]) ++
            [ReclaimReady id (sourceAccount order) (rewardAsset order)
               (ws !!! 3%nat)]).
Proof.
  intros H.
  unfold Ledger.orderCompleted, bind, lift, require, sload_order, sstore_order, emit in H.
  destruct (validateEvent proof) as [msg|[[[c e] topics] data]]; [done|].
  simpl in H.
  case_bool_decide as Hlen; [|done].
  case_bool_decide as Hsel; [|done]. simpl in H.
  case_bool_decide as Hst; [|done].
  destruct (abi_decode data _) as [msg|ws] eqn:Hdec; [done|].
  simpl in H.
  case_bool_decide as Ham; [|done].
  simpl in H. simplify_eq.
  by exists c, e, topics, data, ws.
Qed.

(** The first word of successfully decoded data. *)
Lemma abi_decode_head data tys ws :
  abi_decode data tys = inr ws → tys ≠ [] → ws !!! 0%nat = mload data 0.
Proof.
  unfold abi_decode. intros H Hne.
  repeat case_match; simplify_eq.
  destruct tys; [done|]. reflexivity.
Qed.

(** C1. [openOrder] reverts when the order the proof names is already OPEN
    or COMPLETED; [orderCompleted] reverts when that order is not OPEN,
    and when the amount decoded from the confirmation differs from the
    stored one. Every revert of either function is raised before anything
    was written (the frame is the initial one), and the transaction leaves
    the storage as it was and logs no event. *)
Theorem ledger_rejects_without_write (proof : list byte) (f : Frame) :
  (∀ c e topics data,
      validateEvent proof = inr (c, e, topics, data) →
      state (order_at (store f) (mload topics 32)) = OPEN
      ∨ state (order_at (store f) (mload topics 32)) = COMPLETED →
      ∃ r, openOrder proof f = Revert r f)
  ∧ (∀ c e topics data,
      validateEvent proof = inr (c, e, topics, data) →
      state (order_at (store f) (mload topics 32)) ≠ OPEN →
      ∃ r, orderCompleted proof f = Revert r f)
  ∧ (∀ c e topics data,
      validateEvent proof = inr (c, e, topics, data) →
      mload data 0 ≠ amount (order_at (store f) (mload topics 32)) →
      ∃ r, orderCompleted proof f = Revert r f)
  ∧ (∀ r f', openOrder proof f = Revert r f' → f' = f)
  ∧ (∀ r f', orderCompleted proof f = Revert r f' → f' = f)
  ∧ (∀ st body, body = openOrder proof ∨ body = orderCompleted proof →
      reverted (transact body st) ≠ None →
      post (transact body st) = st ∧ events (transact body st) = []).
Proof.
  split_and!.
  - intros c e topics data Hv Hst.
    destruct (openOrder proof f) as [u f'|r f'] eqn:E.
    + apply openOrder_return in E as (?&?&?&?&?&Hv'&_&_&Hn&_).
      rewrite Hv in Hv'. simplify_eq. rewrite Hn in Hst. by destruct Hst.
    + apply openOrder_revert_frame in E as ?. subst. eauto.
  - intros c e topics data Hv Hst.
    destruct (orderCompleted proof f) as [u f'|r f'] eqn:E.
    + apply orderCompleted_return in E as (?&?&?&?&?&Hv'&_&_&Hn&_).
      rewrite Hv in Hv'. by simplify_eq.
    + apply orderCompleted_revert_frame in E as ?. subst. eauto.
  - intros c e topics data Hv Ham.
    destruct (orderCompleted proof f) as [u f'|r f'] eqn:E.
    + apply orderCompleted_return in E as (?&?&?&?&ws&Hv'&_&_&_&Hdec&Heq&_).
      rewrite Hv in Hv'. simplify_eq.
      apply abi_decode_head in Hdec; [|done]. congruence.
    + apply orderCompleted_revert_frame in E as ?. subst. eauto.
  - intros r f'. apply openOrder_revert_frame.
  - intros r f'. apply orderCompleted_revert_frame.
  - intros st body _ Hr. unfold transact in *.
    destruct (body _); simpl in *; done.
Qed.

Abbreviation step := (step keccak256 validateEvent).
Abbreviation run := (run keccak256 validateEvent).

Lemma order_at_insert st a id o id' :
  order_at (mkStorage a (<[id := o]> (orders st))) id' =
  if decide (id = id') then o else order_at st id'.
Proof.
  unfold order_at. simpl. rewrite lookup_insert. by case_decide.
Qed.

Lemma lifecycle_step_rank a b : lifecycle_step a b → (rank a ≤ rank b)%nat.
Proof. intros [->|[[-> ->]|[-> ->]]]; simpl; lia. Qed.

(** One call moves the record of [id] by at most one step of the life
    cycle, and keeps the frozen fields of a record that exists. *)
Lemma step_order (st : Storage) (c : Call) (id : Z) :
  lifecycle_step (state (order_at st id)) (state (order_at (step st c) id))
  ∧ (state (order_at st id) ≠ NONEXISTENT →
     frozen_fields (order_at (step st c) id) = frozen_fields (order_at st id)).
Proof.
  unfold Ledger.step, transact. destruct c as [ch a b|p|p]; simpl.
  - split; [by left|done].
  - destruct (openOrder p _) as [u f'|r f'] eqn:E; simpl; [|split; [by left|done]].
    apply openOrder_return in E as (?&?&topics&?&ws&_&_&_&Hn&_&->).
    simpl in *. rewrite order_at_insert.
    case_decide as Hid; [subst id|split; [by left|done]].
    rewrite Hn. simpl. split; [right; by left|done].
  - destruct (orderCompleted p _) as [u f'|r f'] eqn:E; simpl; [|split; [by left|done]].
    apply orderCompleted_return in E as (?&?&topics&?&ws&_&_&_&Hn&_&_&->).
    simpl in *. rewrite order_at_insert.
    case_decide as Hid; [subst id|split; [by left|done]].
    rewrite Hn. simpl. split; [right; by right|done].
Qed.

(** C9. Over any sequence of calls the state of an order never moves
    backwards, each call moves it by at most one step
    (NONEXISTENT to OPEN, or OPEN to COMPLETED), and once the order is no
    longer NONEXISTENT its source account, target account, amount, reward
    asset, nonce and network id stay what they were. *)
Theorem order_lifecycle_monotone (st : Storage) (cs : list Call) (id : Z) :
  (rank (state (order_at st id)) ≤ rank (state (order_at (run st cs) id)))%nat
  ∧ (state (order_at st id) ≠ NONEXISTENT →
     frozen_fields (order_at (run st cs) id) = frozen_fields (order_at st id))
  ∧ (∀ c, lifecycle_step (state (order_at st id))
                         (state (order_at (step st c) id))).
Proof.
  split_and!; [| |intros c; apply step_order].
  - revert st. induction cs as [|c cs IH]; intros st; simpl; [lia|].
    etrans; [|apply IH].
    apply lifecycle_step_rank, step_order.
  - revert st. induction cs as [|c cs IH]; intros st Hst; simpl; [done|].
    destruct (step_order st c id) as [Hstep Hfrozen].
    rewrite IH; [by apply Hfrozen|].
    apply lifecycle_step_rank in Hstep.
    destruct (state (order_at st id)); [done| |];
      destruct (state (order_at (step st c) id)); simpl in Hstep; (done || lia).
Qed.

End Facts.

Section Authorization.

Variable keccak256 : string → Z.

Lemma order_at_orders st1 st2 id :
  orders st1 = orders st2 → order_at st1 id = order_at st2 id.
Proof. unfold order_at. by intros ->. Qed.

Lemma transact_authorized body st :
  (∀ f u f', body f = Return u f' →
     authorizedContracts (store f') = authorizedContracts (store f)) →
  authorizedContracts (post (transact body st)) = authorizedContracts st.
Proof.
  intros H. unfold transact.
  destruct (body _) as [u f'|r f'] eqn:E; simpl; [|done].
  by apply H in E.
Qed.

(** C10. Neither [authorizedContracts] nor the chain id and emitting
    contract reported by the prover influence [openOrder] or
    [orderCompleted]: from two storages with the same orders, and with two
    provers that agree on the topics and the data of the proof, both
    functions revert alike, log the same events and leave the same
    orders; and neither function writes [authorizedContracts]. An
    [authorizeSourceContract] call in between changes no order. *)
Theorem authorization_never_enforced
    (v1 v2 : list byte → string + (Z * Z * list byte * list byte))
    (st1 st2 : Storage) (proof : list byte) :
  orders st1 = orders st2 →
  event_part (v1 proof) = event_part (v2 proof) →
  observable (transact (openOrder keccak256 v1 proof) st1)
    = observable (transact (openOrder keccak256 v2 proof) st2)
  ∧ observable (transact (orderCompleted keccak256 v1 proof) st1)
    = observable (transact (orderCompleted keccak256 v2 proof) st2)
  ∧ authorizedContracts (post (transact (openOrder keccak256 v1 proof) st1))
    = authorizedContracts st1
  ∧ authorizedContracts (post (transact (orderCompleted keccak256 v1 proof) st1))
    = authorizedContracts st1
  ∧ (∀ chainId contractAddress authorized,
       orders (step keccak256 v1 st1
                 (CallAuthorize chainId contractAddress authorized))
       = orders st1).
Proof.
  intros Ho Hev. split_and!.
  - unfold observable, transact, openOrder, bind, lift, require, sload_order,
      sstore_order, emit.
    destruct (v1 proof) as [m1|[[[c1 e1] t1] d1]],
             (v2 proof) as [m2|[[[c2 e2] t2] d2]]; simplify_eq/=; [by rewrite Ho|].
    do 2 (case_bool_decide; simpl; [|by rewrite Ho]).
    rewrite (order_at_orders st1 st2) by done.
    case_bool_decide; simpl; [|by rewrite Ho].
    destruct (abi_decode d2 _); simpl; by rewrite Ho.
  - unfold observable, transact, orderCompleted, bind, lift, require, sload_order,
      sstore_order, emit.
    destruct (v1 proof) as [m1|[[[c1 e1] t1] d1]],
             (v2 proof) as [m2|[[[c2 e2] t2] d2]]; simplify_eq/=; [by rewrite Ho|].
    do 2 (case_bool_decide; simpl; [|by rewrite Ho]).
    rewrite (order_at_orders st1 st2) by done.
    case_bool_decide; simpl; [|by rewrite Ho].
    destruct (abi_decode d2 _); simpl; [by rewrite Ho|].
    rewrite ?(order_at_orders st1 st2) by done.
    case_bool_decide; simpl; rewrite ?(order_at_orders st1 st2) by done;
      by rewrite Ho.
  - apply transact_authorized. intros f u f' E.
    apply openOrder_return in E as (?&?&?&?&?&_&_&_&_&_&->). done.
  - apply transact_authorized. intros f u f' E.
    apply orderCompleted_return in E as (?&?&?&?&?&_&_&_&_&_&_&->). done.
  - done.
Qed.

End Authorization.

End LedgerProofs.

(* ===================================================================== *)
(** * Properties of the executor                                          *)
(* ===================================================================== *)

Module ExecutorProofs.
Import JS Executor.

Section Facts.

Variable parseLog : Log → ParseResult.
Variable BigInt_of_string : string → option Z.
Variable axios_post : list (Payload * RelayOutcome) → Payload → ApiResult.

Abbreviation callExecutorAPI := (callExecutorAPI axios_post).
Abbreviation processOrderCreatedEvent :=
  (processOrderCreatedEvent parseLog BigInt_of_string axios_post).
Abbreviation processConfirmationEvent :=
  (processConfirmationEvent parseLog BigInt_of_string axios_post).
Abbreviation process := (process parseLog BigInt_of_string axios_post).
Abbreviation created_effect := (created_effect parseLog BigInt_of_string).
Abbreviation confirmation_effect := (confirmation_effect parseLog BigInt_of_string).
Abbreviation run := (run parseLog BigInt_of_string axios_post).
Abbreviation relays_for := (relays_for parseLog BigInt_of_string axios_post).

(** [callExecutorAPI] sends one request and touches neither set. *)
Lemma callExecutorAPI_spec chain log destMethod s :
  ∃ o, callExecutorAPI chain (blockNumber log) (index log) destMethod s =
       {| processedTxs := processedTxs s;
          pendingOrderIdsFromUnichain := pendingOrderIdsFromUnichain s;
          relayed := relayed s ++ [(relay_request chain log destMethod, o)] |}.
Proof. unfold Executor.callExecutorAPI, relay_request. eauto. Qed.

Lemma processOrderCreatedEvent_spec log s :
  ∃ s', processOrderCreatedEvent log s = Normal s' ∧ created_effect log s s'.
Proof.
  unfold Executor.processOrderCreatedEvent, try_catch, processOrderCreatedEvent_body.
  eexists; split; [reflexivity|].
  case_bool_decide as Hp; simpl; [by constructor|].
  destruct (parseLog log) as [| |args] eqn:Hparse; simpl;
    [apply created_dropped; [done|congruence]..|].
  destruct (args !! 1%nat) as [[d|n]|] eqn:H1; simpl;
    [|apply created_dropped; [done|]; intros ? Ha; rewrite Hparse in Ha;
      simplify_eq; left; unfold destination_matches; by rewrite H1..].
  destruct (startsWith (toLowerCase d) _) eqn:Hd; simpl.
  - destruct (mkOrderCreatedEvent _ d args) as [event|] eqn:Hev; simpl.
    + destruct (callExecutorAPI_spec UNICHAIN_ID log "openOrder"
                  (add_pending (Created.id event)
                     (add_processed (transactionHash log) s))) as [o ->].
      simpl. eapply created_relayed; eauto.
      unfold destination_matches. by rewrite H1.
    + apply created_dropped; [done|]. intros ? Ha. rewrite Hparse in Ha.
      simplify_eq. right. eauto.
  - apply created_dropped; [done|]. intros ? Ha. rewrite Hparse in Ha.
    simplify_eq. left. unfold destination_matches. by rewrite H1.
Qed.

Lemma processConfirmationEvent_spec log s :
  ∃ s', processConfirmationEvent log s = Normal s' ∧ confirmation_effect log s s'.
Proof.
  unfold Executor.processConfirmationEvent, try_catch, processConfirmationEvent_body.
  eexists; split; [reflexivity|].
  case_bool_decide as Hp; simpl; [by constructor|].
  destruct (parseLog log) as [| |args] eqn:Hparse; simpl;
    [apply confirmation_dropped; [done|congruence]..|].
  destruct (mkConfirmationEvent _ args) as [event|] eqn:Hev; simpl;
    [|apply confirmation_dropped; [done|congruence]].
  case_bool_decide as Hin; simpl.
  - destruct (callExecutorAPI_spec BASE_ID log "orderCompleted"
                (add_processed (transactionHash log) s)) as [o ->].
    simpl. unfold delete_pending. simpl. by eapply confirmation_relayed.
  - apply confirmation_dropped; [done|]. intros ?? Ha ?. rewrite Hparse in Ha.
    by simplify_eq.
Qed.

(** Both processors, seen from the dedup set and the request log. *)
Lemma process_spec k log s :
  ∃ s', process k log s = Normal s'
        ∧ transactionHash log ∈ processedTxs s'
        ∧ processedTxs s ⊆ processedTxs s'
        ∧ (transactionHash log ∈ processedTxs s → s' = s)
        ∧ ∃ new, relayed s' = relayed s ++ new ∧ (length new ≤ 1)%nat.
Proof.
  destruct k; simpl.
  - destruct (processOrderCreatedEvent_spec log s) as (s' & -> & He).
    exists s'. split; [done|].
    destruct He as [Hin|Hnew _|???? Hnew]; simpl.
    + split_and!; [done|set_solver|done|]. exists []. rewrite app_nil_r. split; [done|simpl; lia].
    + split_and!; [set_solver|set_solver|done|].
      exists []. rewrite app_nil_r. split; [done|simpl; lia].
    + split_and!; [set_solver|set_solver|done|]. eexists [_]. split; [done|simpl; lia].
  - destruct (processConfirmationEvent_spec log s) as (s' & -> & He).
    exists s'. split; [done|].
    destruct He as [Hin|Hnew _|??? Hnew]; simpl.
    + split_and!; [done|set_solver|done|]. exists []. rewrite app_nil_r. split; [done|simpl; lia].
    + split_and!; [set_solver|set_solver|done|].
      exists []. rewrite app_nil_r. split; [done|simpl; lia].
    + split_and!; [set_solver|set_solver|done|]. eexists [_]. split; [done|simpl; lia].
Qed.

Lemma process_skips k log s :
  transactionHash log ∈ processedTxs s → process k log s = Normal s.
Proof.
  intros Hin. destruct (process_spec k log s) as (s' & -> & _ & _ & Hsame & _).
  by rewrite Hsame.
Qed.

Lemma run_processed_mono ds s : processedTxs s ⊆ processedTxs (run ds s).
Proof.
  revert s. induction ds as [|[k log] ds IH]; intros s; simpl; [done|].
  etrans; [|apply IH].
  destruct (process_spec k log s) as (s' & -> & _ & Hsub & _). done.
Qed.

Lemma relays_for_bound h i ds s :
  (relays_for h i ds s ≤ 1)%nat
  ∧ (h ∈ processedTxs s → relays_for h i ds s = 0%nat).
Proof.
  revert s. induction ds as [|[k log] ds IH]; intros s; simpl; [split; [lia|done]|].
  destruct (process_spec k log s) as (s' & -> & Hin & Hsub & Hsame & new & Hnew & Hlen).
  simpl. destruct (IH s') as [IH1 IH2].
  rewrite Hnew, length_app.
  case_bool_decide as Hd.
  - destruct Hd as [<- <-]. rewrite IH2 by done. split; [lia|].
    intros Hp. rewrite (Hsame Hp) in Hnew.
    assert (new = []) as ->; [|simpl; lia].
    apply (app_inv_head (relayed s)). by rewrite app_nil_r.
  - split; [lia|]. intros Hp. apply IH2. by apply Hsub.
Qed.

(** C7. Whatever events are delivered, in whatever order and to whichever
    processor, the deliveries of one event (same transaction hash and log
    index) send at most one relay request; and once an event has been
    delivered, every later delivery of it is skipped: the processor
    returns with the state untouched, so before any relay call. *)
Theorem replay_relays_at_most_once (s : State) (ds : list (Kind * Log))
    (h : string) (i : Z) :
  (relays_for h i ds s ≤ 1)%nat
  ∧ (∀ k k' log ds',
       let s1 := run ds' (final (process k log s)) in
       process k' log s1 = Normal s1).
Proof.
  split; [apply relays_for_bound|].
  intros k k' log ds' s1. apply process_skips.
  apply run_processed_mono.
  by destruct (process_spec k log s) as (s' & -> & Hin & _).
Qed.

(** C8. A creation event whose destination does not start with the Base
    identifier is dropped: the pending set is unchanged and no request is
    sent. *)
Theorem destination_filter_drops (log : Log) (s : State) (args : list ArgVal) :
  parseLog log = Parsed args →
  destination_matches args = false →
  pendingOrderIdsFromUnichain (final (processOrderCreatedEvent log s))
    = pendingOrderIdsFromUnichain s
  ∧ relayed (final (processOrderCreatedEvent log s)) = relayed s.
Proof.
  intros Hparse Hdest.
  destruct (processOrderCreatedEvent_spec log s) as (s' & -> & He).
  destruct He; simpl; [done..|].
  simplify_eq. congruence.
Qed.

(** C3, as the code has it. The pending set holds a key at most once:
    a creation event that passes the filter leaves the set with exactly
    its key added, hence unchanged when the key was already pending. But
    the event is not dropped for that: unless its transaction hash was
    already processed, it sends one more "openOrder" request. *)
Theorem creation_event_effect (log : Log) (s : State) (args : list ArgVal)
    (d : string) (event : Created.t) :
  transactionHash log ∉ processedTxs s →
  parseLog log = Parsed args →
  args !! 1%nat = Some (VStr d) →
  destination_matches args = true →
  mkOrderCreatedEvent BigInt_of_string d args = Some event →
  let s' := final (processOrderCreatedEvent log s) in
  pendingOrderIdsFromUnichain s' = {[Created.id event]} ∪ pendingOrderIdsFromUnichain s
  ∧ (Created.id event ∈ pendingOrderIdsFromUnichain s →
     pendingOrderIdsFromUnichain s' = pendingOrderIdsFromUnichain s)
  ∧ ∃ o, relayed s' = relayed s ++ [(relay_request UNICHAIN_ID log "openOrder", o)].
Proof.
  intros Hnew Hparse H1 Hdest Hev s'. subst s'.
  destruct (processOrderCreatedEvent_spec log s) as (s' & -> & He).
  destruct He as [?|? Hdrop|args' d' event' o ? Hparse' H1' _ Hev']; simpl; [done| |].
  - destruct (Hdrop _ Hparse) as [?|(d' & ? & ?)]; [congruence|].
    by simplify_eq.
  - rewrite Hparse in Hparse'. simplify_eq.
    split_and!; [done| |eauto].
    intros Hin. apply subseteq_union_1_L. by apply singleton_subseteq_l.
Qed.

(** C2, as the code has it. A confirmation event whose key is pending
    sends the "orderCompleted" request and then removes the key from the
    pending set, whatever the outcome of the request was. *)
Theorem confirmation_event_effect (log : Log) (s : State) (args : list ArgVal)
    (event : Confirmation.t) :
  transactionHash log ∉ processedTxs s →
  parseLog log = Parsed args →
  mkConfirmationEvent BigInt_of_string args = Some event →
  Confirmation.id event ∈ pendingOrderIdsFromUnichain s →
  let s' := final (processConfirmationEvent log s) in
  (Confirmation.id event ∉ pendingOrderIdsFromUnichain s')
  ∧ pendingOrderIdsFromUnichain s'
    = pendingOrderIdsFromUnichain s ∖ {[Confirmation.id event]}
  ∧ ∃ o, relayed s' = relayed s ++ [(relay_request BASE_ID log "orderCompleted", o)].
Proof.
  intros Hnew Hparse Hev Hin s'. subst s'.
  destruct (processConfirmationEvent_spec log s) as (s' & -> & He).
  destruct He as [?|? Hdrop|args' event' o ? Hparse' Hev' _]; simpl; [done| |].
  - by destruct (Hdrop _ _ Hparse Hev).
  - rewrite Hparse in Hparse'. simplify_eq.
    split_and!; [|done|eauto].
    intros [_ Hn]%elem_of_difference. apply Hn. by apply elem_of_singleton.
Qed.

(** ** The polling loop *)

(** The shipped processors never throw, so the loop hands them every log. *)
Lemma deliver_process k logs s :
  deliver (process k) logs s = (Normal (run ((k,.) <$> logs) s), logs).
Proof.
  revert s. induction logs as [|log logs IH]; intros s; simpl; [done|].
  destruct (process_spec k log s) as (s' & Hp & _). rewrite Hp. simpl.
  by rewrite IH.
Qed.

(** Whatever the processor, the loop calls it on a prefix of the batch, in
    the order of the batch, and on all of it unless a call throws. *)
Lemma deliver_prefix processor logs s :
  (deliver processor logs s).2 `prefix_of` logs
  ∧ (threw (deliver processor logs s).1 = false →
     (deliver processor logs s).2 = logs).
Proof.
  revert s. induction logs as [|log logs IH]; intros s; simpl; [done|].
  destruct (processor log s) as [s'|s']; simpl.
  - destruct (IH s') as [IH1 IH2].
    destruct (deliver processor logs s') as [c done]; simpl in *.
    split; [by apply prefix_cons|]. intros Hc. by rewrite IH2.
  - split; [|done]. by exists logs.
Qed.

(** C4, as the code has it. When the height and the logs are obtained,
    [pollForEvents] with either shipped processor hands every log of the
    batch to the processor and returns the current height, whatever became
    of the relay requests (the processors catch every failure). With an
    arbitrary processor the watermark is held back exactly when a call of
    the processor throws. *)
Theorem watermark_advances_after_batch
    (provider : Provider) (contract : Contract) (eventName topicHash : string)
    (lastProcessedBlock currentBlock : Z) (logs : list Log) (s : State) :
  getBlockNumber provider = Some currentBlock →
  lastProcessedBlock < currentBlock →
  getEvent contract eventName = Some topicHash →
  getLogs provider (mkFilter (lastProcessedBlock + 1) currentBlock
                             (target contract) [topicHash]) = Some logs →
  (∀ k,
     let r := pollForEvents provider contract eventName (process k)
                lastProcessedBlock s in
     watermark r = currentBlock ∧ delivered r = logs
     ∧ after r = run ((k,.) <$> logs) s)
  ∧ (∀ processor,
       let r := pollForEvents provider contract eventName processor
                  lastProcessedBlock s in
       watermark r =
         if threw (deliver processor logs s).1 then lastProcessedBlock
         else currentBlock).
Proof.
  intros Hh Hlt Hev Hlogs. unfold pollForEvents.
  rewrite Hh, Hev. rewrite bool_decide_eq_false_2 by lia. rewrite Hlogs.
  split.
  - intros k. rewrite deliver_process. done.
  - intros processor. by destruct (deliver processor logs s) as [[s'|s'] done].
Qed.

End Facts.

End ExecutorProofs.

(* ===================================================================== *)
(** * Properties of the pollers                                           *)
(* ===================================================================== *)

Module PollerProofs.
Import JS.

Lemma event_le_before a b : Listener.event_le a b ↔ Listener.before a b.
Proof.
  unfold Listener.event_le, Listener.compareEvents, Listener.before.
  case_bool_decide; lia.
Qed.

Lemma event_le_total : Total Listener.event_le.
Proof.
  intros a b. rewrite !event_le_before. unfold Listener.before. lia.
Qed.

Lemma event_le_trans : Transitive Listener.event_le.
Proof.
  intros a b c. rewrite !event_le_before. unfold Listener.before. lia.
Qed.

Lemma StronglySorted_impl {A} (R R' : relation A) l :
  (∀ x y, R x y → R' x y) → StronglySorted R l → StronglySorted R' l.
Proof.
  intros HR. induction 1 as [|x l _ IH Hx]; constructor; [done|].
  eapply Forall_impl; [exact Hx|]. auto.
Qed.

Lemma StronglySorted_prefix {A} (R : relation A) l1 l2 :
  l1 `prefix_of` l2 → StronglySorted R l2 → StronglySorted R l1.
Proof. intros [k ->]. apply StronglySorted_app_1_l. Qed.

(** [Array.prototype.sort] with the listener's comparator yields the same
    events in non-decreasing (blockNumber, logIndex) order. *)
Lemma sortEvents_sorted l :
  Listener.sortEvents l ≡ₚ l ∧ StronglySorted Listener.before (Listener.sortEvents l).
Proof.
  split; [apply merge_sort_Permutation|].
  eapply StronglySorted_impl;
    [|apply (@StronglySorted_merge_sort _ Listener.event_le _ event_le_trans event_le_total)].
  intros x y. by rewrite event_le_before.
Qed.

Section Hub.

Variable BigInt_of_string : string → option Z.

Abbreviation deliver := (Listener.deliver BigInt_of_string).
Abbreviation pollForHubEvents := (Listener.pollForHubEvents BigInt_of_string).

Lemma hub_deliver_prefix events s :
  (deliver events s).2 `prefix_of` events
  ∧ (threw (deliver events s).1 = false → (deliver events s).2 = events).
Proof.
  revert s. induction events as [|e events IH]; intros s; simpl; [done|].
  destruct (Listener.processHubEvent _ e s) as [s'|s']; simpl.
  - destruct (IH s') as [IH1 IH2].
    destruct (deliver events s') as [c done]; simpl in *.
    split; [by apply prefix_cons|]. intros Hc. by rewrite IH2.
  - split; [|done]. by exists events.
Qed.

(** What a poll asked for and delivered, by cases: nothing, or the three
    queries over one range and a prefix of the sorted answers. *)
Lemma pollForHubEvents_cases env s :
  let r := pollForHubEvents env s in
  (Listener.queried r = [] ∧ Listener.delivered r = [])
  ∨ ∃ currentBlock s1,
      Listener.getBlockNumber env = Some currentBlock
      ∧ s1 = (if bool_decide (Listener.lastPolledBlock s = -1)
              then Listener.set_lastPolledBlock
                     (Z.max 0 (currentBlock - Listener.CATCH_UP_BLOCK_COUNT)) s
              else s)
      ∧ Listener.lastPolledBlock s1 < currentBlock
      ∧ Listener.queried r =
          (λ n, (n, Listener.lastPolledBlock s1 + 1, currentBlock)) <$> Listener.hub_filters
      ∧ (Listener.delivered r = []
         ∨ ∃ eventArrays,
             mapM (λ n, Listener.queryFilter env n
                          (Listener.lastPolledBlock s1 + 1) currentBlock)
                  Listener.hub_filters = Some eventArrays
             ∧ Listener.delivered r =
                 (deliver (Listener.sortEvents (concat eventArrays)) s1).2).
Proof.
  unfold Listener.pollForHubEvents.
  destruct (Listener.initialised env); cbn [negb]; [|by left].
  destruct (Listener.has_filters env); cbn [negb]; [|by left].
  destruct (Listener.getBlockNumber env) as [currentBlock|]; [|by left].
  set (s1 := if bool_decide (Listener.lastPolledBlock s = -1) then _ else s).
  case_bool_decide as Hle; [by left|].
  destruct (_ && _ && _); cbn [negb]; [|by left].
  right. exists currentBlock, s1.
  match goal with |- context [mapM ?f ?l] =>
    destruct (mapM f l) as [eventArrays|] eqn:Hq end.
  - split_and!; [done|done|lia| |].
    + by destruct (deliver _ _) as [[?|?] ?].
    + right. exists eventArrays. split; [done|].
      by destruct (deliver _ _) as [[?|?] ?].
  - split_and!; [done|done|lia|done|by left].
Qed.

Lemma processHubEvent_watermark e s :
  Listener.lastPolledBlock (final (Listener.processHubEvent BigInt_of_string e s))
  = Listener.lastPolledBlock s.
Proof.
  unfold Listener.processHubEvent. repeat case_match; done.
Qed.

Lemma hub_deliver_watermark events s :
  Listener.lastPolledBlock (final (deliver events s).1) = Listener.lastPolledBlock s.
Proof.
  revert s. induction events as [|e events IH]; intros s; simpl; [done|].
  pose proof (processHubEvent_watermark e s) as He.
  destruct (Listener.processHubEvent _ e s) as [s'|s']; simpl in *; [|done].
  specialize (IH s').
  destruct (deliver events s') as [c done]; simpl in *. congruence.
Qed.

(** Every event of the answers to the three queries came from a query
    over the same range. *)
Lemma fetched_from_query env fromBlock toBlock eventArrays e :
  mapM (λ n, Listener.queryFilter env n fromBlock toBlock) Listener.hub_filters
    = Some eventArrays →
  e ∈ concat eventArrays →
  ∃ n l, Listener.queryFilter env n fromBlock toBlock = Some l ∧ e ∈ l.
Proof.
  intros Hq He. apply mapM_Some_1 in Hq.
  apply list_elem_of_In, in_concat in He as (l & Hl & Hel).
  apply list_elem_of_In in Hl, Hel.
  apply list_elem_of_lookup in Hl as [i Hi].
  destruct (Forall2_lookup_r _ _ _ _ _ Hq Hi) as (n & _ & Hn). eauto.
Qed.

Lemma hub_delivered_sorted env s :
  StronglySorted Listener.before (Listener.delivered (pollForHubEvents env s)).
Proof.
  destruct (pollForHubEvents_cases env s)
    as [[_ ->]|(cur & s1 & _ & _ & _ & _ & [->|(arrays & _ & ->)])];
    [constructor..|].
  eapply StronglySorted_prefix; [apply hub_deliver_prefix|].
  apply sortEvents_sorted.
Qed.

End Hub.



End PollerProofs.

(* ===================================================================== *)
(** * Instances and counterexamples                                       *)
(* ===================================================================== *)

Module Examples.
Import JS Samples.

(** Scenarios A and B of the order life cycle on the sample ledger. *)
Example scenario_open_then_complete :
  Ledger.state (Ledger.order_at opened_storage 0xAA) = Ledger.OPEN
  ∧ Ledger.amount (Ledger.order_at opened_storage 0xAA) = 100
  ∧ Ledger.state
      (Ledger.order_at
         (Ledger.step keccak (prover 84532 9) opened_storage
            (Ledger.CallOrderCompleted (confirmation_proof 0xAA 100))) 0xAA)
    = Ledger.COMPLETED.
Proof. by vm_compute. Qed.

(** An instance of C1: a second [openOrder] for [0xAA] reverts. *)
Lemma ledger_rejects_witness :
  prover 1301 7 (created_proof 0xAA 100)
    = inr (1301, 7, take 96 (drop 1 (created_proof 0xAA 100)),
           drop 97 (created_proof 0xAA 100))
  ∧ Ledger.state (Ledger.order_at opened_storage
                    (Ledger.mload (take 96 (drop 1 (created_proof 0xAA 100))) 32))
    = Ledger.OPEN
  ∧ ∃ r, Ledger.openOrder keccak (prover 1301 7) (created_proof 0xAA 100)
           (Ledger.mkFrame opened_storage [])
         = Ledger.Revert r (Ledger.mkFrame opened_storage []).
Proof.
  assert (Hv : prover 1301 7 (created_proof 0xAA 100)
    = inr (1301, 7, take 96 (drop 1 (created_proof 0xAA 100)),
           drop 97 (created_proof 0xAA 100))) by (vm_compute; reflexivity).
  assert (Hs : Ledger.state (Ledger.order_at opened_storage
                    (Ledger.mload (take 96 (drop 1 (created_proof 0xAA 100))) 32))
    = Ledger.OPEN) by (vm_compute; reflexivity).
  split; [exact Hv|]. split; [exact Hs|].
  exact (proj1 (LedgerProofs.ledger_rejects_without_write keccak (prover 1301 7)
                  (created_proof 0xAA 100) (Ledger.mkFrame opened_storage []))
               _ _ _ _ Hv (or_introl Hs)).
Defined.

(** An instance of C9: completing [0xAA], trying to open it again and
    authorizing a contract leave its frozen fields alone. *)
Lemma lifecycle_witness :
  Ledger.state (Ledger.order_at opened_storage 0xAA) ≠ Ledger.NONEXISTENT
  ∧ Ledger.frozen_fields
      (Ledger.order_at
         (Ledger.run keccak (prover 84532 9) opened_storage
            [Ledger.CallOrderCompleted (confirmation_proof 0xAA 100);
             Ledger.CallOpenOrder (created_proof 0xAA 7);
             Ledger.CallAuthorize 1301 7 true]) 0xAA)
    = Ledger.frozen_fields (Ledger.order_at opened_storage 0xAA).
Proof.
  assert (Hs : Ledger.state (Ledger.order_at opened_storage 0xAA) ≠ Ledger.NONEXISTENT)
    by (vm_compute; discriminate).
  split; [exact Hs|].
  exact (proj1 (proj2 (LedgerProofs.order_lifecycle_monotone keccak (prover 84532 9)
                         opened_storage _ 0xAA)) Hs).
Defined.

(** An instance of C10: a different chain id and emitter, and an
    authorization in storage, change nothing. *)
Lemma authorization_witness :
  Ledger.orders opened_storage = Ledger.orders authorized_storage
  ∧ Ledger.event_part (prover 1301 7 (confirmation_proof 0xAA 100))
    = Ledger.event_part (prover 999 666 (confirmation_proof 0xAA 100))
  ∧ Ledger.observable
      (Ledger.transact
         (Ledger.orderCompleted keccak (prover 1301 7) (confirmation_proof 0xAA 100))
         opened_storage)
    = Ledger.observable
        (Ledger.transact
           (Ledger.orderCompleted keccak (prover 999 666) (confirmation_proof 0xAA 100))
           authorized_storage).
Proof.
  assert (Ho : Ledger.orders opened_storage = Ledger.orders authorized_storage)
    by (vm_compute; reflexivity).
  assert (He : Ledger.event_part (prover 1301 7 (confirmation_proof 0xAA 100))
    = Ledger.event_part (prover 999 666 (confirmation_proof 0xAA 100)))
    by (vm_compute; reflexivity).
  split; [exact Ho|]. split; [exact He|].
  exact (proj1 (proj2 (LedgerProofs.authorization_never_enforced keccak
                         (prover 1301 7) (prover 999 666)
                         opened_storage authorized_storage
                         (confirmation_proof 0xAA 100) Ho He))).
Defined.

(** Decide a closed proposition by evaluation. *)
Ltac by_evaluation := apply (bool_decide_unpack _); vm_compute; exact I.

(** An instance of C8: an order for another destination is dropped. *)
Lemma destination_filter_witness :
  parse elsewhere_creation = Executor.Parsed (created_args "0xCC" "0x6f707469")
  ∧ Executor.destination_matches (created_args "0xCC" "0x6f707469") = false
  ∧ Executor.pendingOrderIdsFromUnichain
      (final (Executor.processOrderCreatedEvent parse no_BigInt api_up
                elsewhere_creation pending_AA))
    = Executor.pendingOrderIdsFromUnichain pending_AA
  ∧ Executor.relayed
      (final (Executor.processOrderCreatedEvent parse no_BigInt api_up
                elsewhere_creation pending_AA))
    = Executor.relayed pending_AA.
Proof.
  assert (Hp : parse elsewhere_creation
               = Executor.Parsed (created_args "0xCC" "0x6f707469")) by reflexivity.
  assert (Hd : Executor.destination_matches (created_args "0xCC" "0x6f707469") = false)
    by reflexivity.
  split; [exact Hp|]. split; [exact Hd|].
  exact (ExecutorProofs.destination_filter_drops parse no_BigInt api_up
           elsewhere_creation pending_AA _ Hp Hd).
Defined.

(** An instance of C3 as amended: the first creation event for [0xAA]. *)
Lemma creation_event_witness :
  (Executor.transactionHash first_creation ∉ Executor.processedTxs fresh)
  ∧ parse first_creation = Executor.Parsed (created_args "0xAA" "0x62617374")
  ∧ created_args "0xAA" "0x62617374" !! 1%nat = Some (VStr "0x62617374")
  ∧ Executor.destination_matches (created_args "0xAA" "0x62617374") = true
  ∧ Executor.mkOrderCreatedEvent no_BigInt "0x62617374"
      (created_args "0xAA" "0x62617374") = Some event_AA
  ∧ Executor.pendingOrderIdsFromUnichain
      (final (Executor.processOrderCreatedEvent parse no_BigInt api_up
                first_creation fresh))
    = {[VStr "0xAA"]} ∪ Executor.pendingOrderIdsFromUnichain fresh.
Proof.
  assert (H0 : Executor.transactionHash first_creation ∉ Executor.processedTxs fresh)
    by by_evaluation.
  assert (H1 : parse first_creation
               = Executor.Parsed (created_args "0xAA" "0x62617374")) by reflexivity.
  assert (H2 : created_args "0xAA" "0x62617374" !! 1%nat = Some (VStr "0x62617374"))
    by reflexivity.
  assert (H3 : Executor.destination_matches (created_args "0xAA" "0x62617374") = true)
    by reflexivity.
  assert (H4 : Executor.mkOrderCreatedEvent no_BigInt "0x62617374"
                 (created_args "0xAA" "0x62617374") = Some event_AA) by reflexivity.
  split_and!; [exact H0|exact H1|exact H2|exact H3|exact H4|].
  exact (proj1 (ExecutorProofs.creation_event_effect parse no_BigInt api_up
                  first_creation fresh _ _ event_AA H0 H1 H2 H3 H4)).
Defined.

(** C3 fails as stated: a second creation event for the pending order
    [0xAA], in another transaction, is not dropped; it sends a second
    "openOrder" request. *)
Lemma duplicate_creation_relayed_again :
  VStr "0xAA" ∈ Executor.pendingOrderIdsFromUnichain pending_AA
  ∧ Executor.relayed pending_AA
    = [(Executor.relay_request Executor.UNICHAIN_ID first_creation "openOrder",
        Executor.TransactionExecuted)]
  ∧ Executor.relayed
      (final (Executor.processOrderCreatedEvent parse no_BigInt api_up
                second_creation pending_AA))
    = [(Executor.relay_request Executor.UNICHAIN_ID first_creation "openOrder",
        Executor.TransactionExecuted);
       (Executor.relay_request Executor.UNICHAIN_ID second_creation "openOrder",
        Executor.TransactionExecuted)].
Proof. split_and!; [by_evaluation|by vm_compute..]. Qed.

(** An instance of C2 as amended: the confirmation of the pending [0xAA]. *)
Lemma confirmation_event_witness :
  (Executor.transactionHash confirmation_AA ∉ Executor.processedTxs pending_AA)
  ∧ parse confirmation_AA
    = Executor.Parsed (confirmation_args "0xAA" "0x02" "0x08")
  ∧ Executor.mkConfirmationEvent no_BigInt (confirmation_args "0xAA" "0x02" "0x08")
    = Some confirmed_AA
  ∧ VStr "0xAA" ∈ Executor.pendingOrderIdsFromUnichain pending_AA
  ∧ VStr "0xAA" ∉
      Executor.pendingOrderIdsFromUnichain
        (final (Executor.processConfirmationEvent parse no_BigInt api_up
                  confirmation_AA pending_AA)).
Proof.
  assert (H0 : Executor.transactionHash confirmation_AA
               ∉ Executor.processedTxs pending_AA) by by_evaluation.
  assert (H1 : parse confirmation_AA
               = Executor.Parsed (confirmation_args "0xAA" "0x02" "0x08"))
    by reflexivity.
  assert (H2 : Executor.mkConfirmationEvent no_BigInt
                 (confirmation_args "0xAA" "0x02" "0x08") = Some confirmed_AA)
    by reflexivity.
  assert (H3 : VStr "0xAA" ∈ Executor.pendingOrderIdsFromUnichain pending_AA)
    by by_evaluation.
  split_and!; [exact H0|exact H1|exact H2|exact H3|].
  exact (proj1 (ExecutorProofs.confirmation_event_effect parse no_BigInt api_up
                  confirmation_AA pending_AA _ confirmed_AA H0 H1 H2 H3)).
Defined.

(** C2 fails as stated: with the executor API unreachable the "complete"
    request fails, and the key [0xAA] is removed from the pending set all
    the same. *)
Lemma confirmation_removed_after_failed_relay :
  VStr "0xAA" ∈ Executor.pendingOrderIdsFromUnichain pending_AA
  ∧ Executor.relayed
      (final (Executor.processConfirmationEvent parse no_BigInt api_down
                confirmation_AA pending_AA))
    = Executor.relayed pending_AA
      ++ [(Executor.relay_request Executor.BASE_ID confirmation_AA "orderCompleted",
           Executor.ApiCallFailed)]
  ∧ Executor.accepted Executor.ApiCallFailed = false
  ∧ VStr "0xAA" ∉
      Executor.pendingOrderIdsFromUnichain
        (final (Executor.processConfirmationEvent parse no_BigInt api_down
                  confirmation_AA pending_AA)).
Proof. split_and!; [by_evaluation|by vm_compute..|by_evaluation]. Qed.

(** An instance of C4 as amended: a batch of one confirmation. *)
Lemma watermark_witness :
  Executor.getBlockNumber (chain 20 [confirmation_AA]) = Some 20
  ∧ 10 < 20
  ∧ Executor.getEvent spoke "Confirmation" = Some "0xtopic"%string
  ∧ Executor.getLogs (chain 20 [confirmation_AA])
      (Executor.mkFilter (10 + 1) 20 (Executor.target spoke) ["0xtopic"%string])
    = Some [confirmation_AA]
  ∧ Executor.watermark
      (Executor.pollForEvents (chain 20 [confirmation_AA]) spoke "Confirmation"
         (Executor.process parse no_BigInt api_up Executor.Confirm) 10 pending_AA)
    = 20.
Proof.
  assert (H0 : Executor.getBlockNumber (chain 20 [confirmation_AA]) = Some 20)
    by reflexivity.
  assert (H1 : 10 < 20) by lia.
  assert (H2 : Executor.getEvent spoke "Confirmation" = Some "0xtopic"%string)
    by reflexivity.
  assert (H3 : Executor.getLogs (chain 20 [confirmation_AA])
      (Executor.mkFilter (10 + 1) 20 (Executor.target spoke) ["0xtopic"%string])
    = Some [confirmation_AA]) by reflexivity.
  split_and!; [exact H0|exact H1|exact H2|exact H3|].
  exact (proj1 (proj1 (ExecutorProofs.watermark_advances_after_batch
                         parse no_BigInt api_up (chain 20 [confirmation_AA]) spoke
                         "Confirmation" "0xtopic" 10 20 [confirmation_AA] pending_AA
                         H0 H1 H2 H3) Executor.Confirm)).
Defined.

(** C4 fails as stated: the relay of the only event of the batch fails (the
    executor API is unreachable), and the watermark moves from 10 to 20 all
    the same, so the event is not delivered again. *)
Lemma watermark_advances_despite_failed_relay :
  Executor.delivered failed_poll = [confirmation_AA]
  ∧ Executor.relayed (Executor.after failed_poll)
    = Executor.relayed pending_AA
      ++ [(Executor.relay_request Executor.BASE_ID confirmation_AA "orderCompleted",
           Executor.ApiCallFailed)]
  ∧ Executor.accepted Executor.ApiCallFailed = false
  ∧ Executor.watermark failed_poll = 20
  ∧ Executor.watermark failed_poll ≠ 10.
Proof. split_and!; [by vm_compute..|]. vm_compute. discriminate. Qed.



(** The hub listener delivers the same kind of batch sorted. *)
Example listener_delivers_sorted :
  Listener.delivered (Listener.pollForHubEvents no_BigInt (hub 1000) Listener.initial)
  = [hub_log "0xh2" 0 950 "OrderCompleted"; hub_log "0xh1" 1 950 "OrderOpened";
     hub_log "0xh3" 0 990 "OrderOpened"].
Proof. by vm_compute. Qed.



(** Scenario C: a confirmation for an order never seen is dropped without
    any request. *)
Example scenario_orphan_confirmation :
  Executor.relayed
    (final (Executor.processConfirmationEvent parse no_BigInt api_up
              (confirmation_log "0xt9" 30 0 "0xBB") pending_AA))
  = Executor.relayed pending_AA.
Proof. by vm_compute. Qed.

End Examples.

(* ===================================================================== *)
(** * Further properties of the ledger                                    *)
(* ===================================================================== *)

Module LedgerMore.
Import Ledger Derived.

Section Facts.

Variable keccak256 : string → Z.
Variable validateEvent : list byte → string + (Z * Z * list byte * list byte).

Abbreviation openOrder := (openOrder keccak256 validateEvent).
Abbreviation orderCompleted := (orderCompleted keccak256 validateEvent).
Abbreviation step := (step keccak256 validateEvent).
Abbreviation run := (run keccak256 validateEvent).

(** [openOrder] on a proof that passes every check. *)
Lemma openOrder_accepts proof f c e topics data ws :
  validateEvent proof = inr (c, e, topics, data) →
  (96 ≤ length topics)%nat →
  mload topics 0 = keccak256 OrderCreated_sig →
  state (order_at (store f) (mload topics 32)) = NONEXISTENT →
  abi_decode data created_types = inr ws →
  openOrder proof f =
    Return tt
      (mkFrame
         (mkStorage (authorizedContracts (store f))
            (<[mload topics 32 := opened_record topics ws]> (orders (store f))))
         (emitted f ++ [opened_event topics ws])).
Proof.
  intros Hv Hlen Hsel Hst Hdec.
  unfold Ledger.openOrder, bind, lift, require, sload_order, sstore_order, emit.
  rewrite Hv. cbn -[abi_decode].
  rewrite (bool_decide_eq_true_2 _ Hlen), (bool_decide_eq_true_2 _ Hsel).
  cbn -[abi_decode]. rewrite (bool_decide_eq_true_2 _ Hst).
  unfold created_types in Hdec. by rewrite Hdec.
Qed.

(** [orderCompleted] on a proof that passes every check. *)
Lemma orderCompleted_accepts proof f c e topics data ws :
  validateEvent proof = inr (c, e, topics, data) →
  (128 ≤ length topics)%nat →
  mload topics 0 = keccak256 Confirmation_sig →
  state (order_at (store f) (mload topics 32)) = OPEN →
  abi_decode data confirmation_types = inr ws →
  amount (order_at (store f) (mload topics 32)) = ws !!! 0%nat →
  orderCompleted proof f =
    Return tt
      (mkFrame
         (mkStorage (authorizedContracts (store f))
            (<[mload topics 32 :=
                 completed_record (order_at (store f) (mload topics 32)) ws]>
               (orders (store f))))
         (emitted f ++
          completed_events topics (order_at (store f) (mload topics 32)) ws)).
Proof.
  intros Hv Hlen Hsel Hst Hdec Ham.
  unfold Ledger.orderCompleted, bind, lift, require, sload_order, sstore_order, emit.
  rewrite Hv. cbn -[abi_decode].
  rewrite (bool_decide_eq_true_2 _ Hlen), (bool_decide_eq_true_2 _ Hsel).
  cbn -[abi_decode]. rewrite (bool_decide_eq_true_2 _ Hst).
  unfold confirmation_types in Hdec. rewrite Hdec. cbn.
  rewrite (bool_decide_eq_true_2 _ Ham). cbn.
  unfold completed_events, completed_record. by rewrite <- app_assoc.
Qed.

Abbreviation opens := (opens keccak256 validateEvent).
Abbreviation completes := (completes keccak256 validateEvent).

(** X1. [openOrder] succeeds exactly when the prover accepts the proof, the
    topics hold three words, the first is the OrderCreated selector, the
    order named by the second is NONEXISTENT and the data decodes. It then
    stores the decoded fields as they are with state OPEN and confirmation
    id zero, logs one OrderOpened event carrying them, and changes nothing
    else. *)
Theorem openOrder_accepts_exactly (st : Storage) (proof : list byte) :
  (reverted (transact (openOrder proof) st) = None
   ↔ ∃ topics data ws, opens st proof topics data ws)
  ∧ (∀ topics data ws,
       opens st proof topics data ws →
       transact (openOrder proof) st =
         mkReceipt
           (mkStorage (authorizedContracts st)
              (<[mload topics 32 := opened_record topics ws]> (orders st)))
           [opened_event topics ws] None
       ∧ getOrderInfo (post (transact (openOrder proof) st)) (mload topics 32)
         = opened_record topics ws
       ∧ isOrderOpen (post (transact (openOrder proof) st)) (mload topics 32) = true).
Proof.
  assert (Hacc : ∀ topics data ws,
    opens st proof topics data ws →
    transact (openOrder proof) st =
      mkReceipt
        (mkStorage (authorizedContracts st)
           (<[mload topics 32 := opened_record topics ws]> (orders st)))
        [opened_event topics ws] None).
  { intros topics data ws ((c & e & Hv) & Hlen & Hsel & Hst & Hdec).
    unfold transact.
    by rewrite (openOrder_accepts proof (mkFrame st []) c e topics data ws). }
  split; [split|].
  - unfold transact. destruct (openOrder proof _) as [u f'|r f'] eqn:E; [|done].
    intros _.
    apply LedgerProofs.openOrder_return in E
      as (c & e & topics & data & ws & Hv & Hlen & Hsel & Hst & Hdec & _).
    exists topics, data, ws. unfold Derived.opens. eauto 10.
  - intros (topics & data & ws & H). by rewrite (Hacc _ _ _ H).
  - intros topics data ws H. rewrite (Hacc _ _ _ H). simpl.
    split; [done|].
    unfold getOrderInfo, isOrderOpen. rewrite LedgerProofs.order_at_insert.
    rewrite decide_True by done. done.
Qed.

(** X2. [orderCompleted] succeeds exactly when the prover accepts the
    proof, the topics hold four words, the first is the Confirmation
    selector, the order named by the second is OPEN, the data decodes and
    its amount is the stored one. It then sets the state to COMPLETED, stores
    the confirmation id and timestamp, and logs OrderCompleted followed by
    ReclaimReady, the latter with the stored source account and reward
    asset. *)
Theorem orderCompleted_accepts_exactly (st : Storage) (proof : list byte) :
  (reverted (transact (orderCompleted proof) st) = None
   ↔ ∃ topics data ws, completes st proof topics data ws)
  ∧ (∀ topics data ws,
       completes st proof topics data ws →
       transact (orderCompleted proof) st =
         mkReceipt
           (mkStorage (authorizedContracts st)
              (<[mload topics 32 :=
                   completed_record (order_at st (mload topics 32)) ws]>
                 (orders st)))
           (completed_events topics (order_at st (mload topics 32)) ws) None
       ∧ isOrderCompleted (post (transact (orderCompleted proof) st))
           (mload topics 32) = true
       ∧ isOrderOpen (post (transact (orderCompleted proof) st))
           (mload topics 32) = false).
Proof.
  assert (Hacc : ∀ topics data ws,
    completes st proof topics data ws →
    transact (orderCompleted proof) st =
      mkReceipt
        (mkStorage (authorizedContracts st)
           (<[mload topics 32 :=
                completed_record (order_at st (mload topics 32)) ws]>
              (orders st)))
        (completed_events topics (order_at st (mload topics 32)) ws) None).
  { intros topics data ws ((c & e & Hv) & Hlen & Hsel & Hst & Hdec & Ham).
    unfold transact.
    by rewrite (orderCompleted_accepts proof (mkFrame st []) c e topics data ws). }
  split; [split|].
  - unfold transact. destruct (orderCompleted proof _) as [u f'|r f'] eqn:E; [|done].
    intros _.
    apply LedgerProofs.orderCompleted_return in E
      as (c & e & topics & data & ws & Hv & Hlen & Hsel & Hst & Hdec & Ham & _).
    exists topics, data, ws. unfold Derived.completes. eauto 10.
  - intros (topics & data & ws & H). by rewrite (Hacc _ _ _ H).
  - intros topics data ws H. rewrite (Hacc _ _ _ H). simpl.
    split; [done|].
    unfold isOrderCompleted, isOrderOpen. rewrite LedgerProofs.order_at_insert.
    rewrite decide_True by done. done.
Qed.

(** What one call writes to the orders: nothing, or one record. *)
Lemma step_orders (st : Storage) (c : Call) :
  orders (step st c) = orders st
  ∨ ∃ id o,
      orders (step st c) = <[id := o]> (orders st)
      ∧ ((state (order_at st id) = NONEXISTENT ∧ state o = OPEN
          ∧ confirmationId o = 0)
         ∨ (state (order_at st id) = OPEN ∧ state o = COMPLETED)).
Proof.
  unfold Ledger.step, transact. destruct c as [ch a b|p|p]; simpl; [by left| |].
  - destruct (openOrder p _) as [u f'|r f'] eqn:E; simpl; [|by left].
    apply LedgerProofs.openOrder_return in E
      as (?&?&topics&?&ws&_&_&_&Hn&_&->).
    right. eexists _, _. split; [done|]. left. by simpl in *.
  - destruct (orderCompleted p _) as [u f'|r f'] eqn:E; simpl; [|by left].
    apply LedgerProofs.orderCompleted_return in E
      as (?&?&topics&?&ws&_&_&_&Hn&_&_&->).
    right. eexists _, _. split; [done|]. right. by simpl in *.
Qed.

Lemma order_at_orders_insert st st' id o id' :
  orders st' = <[id := o]> (orders st) →
  order_at st' id' = if decide (id = id') then o else order_at st id'.
Proof.
  intros H. unfold order_at. rewrite H, lookup_insert. by case_decide.
Qed.

(** X3. A call writes at most one order record: all the others read as
    before. *)
Theorem call_touches_one_order (st : Storage) (c : Call) :
  ∃ id, ∀ id', id' ≠ id → order_at (step st c) id' = order_at st id'.
Proof.
  destruct (step_orders st c) as [H|(id & o & H & _)].
  - exists 0. intros id' _. unfold order_at. by rewrite H.
  - exists id. intros id' Hne.
    rewrite (order_at_orders_insert _ _ _ _ _ H). by rewrite decide_False.
Qed.

Lemma step_completed st c id :
  state (order_at st id) = COMPLETED →
  order_at (step st c) id = order_at st id.
Proof.
  intros Hc. destruct (step_orders st c) as [H|(id0 & o & H & Hk)].
  - unfold order_at. by rewrite H.
  - rewrite (order_at_orders_insert _ _ _ _ _ H).
    case_decide as Hid; [subst id0|done].
    destruct Hk as [(Hs & _)|(Hs & _)]; congruence.
Qed.

(** X4. COMPLETED is final: once an order is COMPLETED, no sequence of
    calls changes any field of its record, confirmation id and timestamp
    included. *)
Theorem completed_is_final (st : Storage) (cs : list Call) (id : Z) :
  state (order_at st id) = COMPLETED →
  order_at (run st cs) id = order_at st id.
Proof.
  revert st. induction cs as [|c cs IH]; intros st Hc; simpl; [done|].
  rewrite IH; [by apply step_completed|].
  by rewrite step_completed.
Qed.

(** The reason [openOrder] gives for an order that exists. *)
Lemma openOrder_exists proof f c e topics data :
  validateEvent proof = inr (c, e, topics, data) →
  (96 ≤ length topics)%nat →
  mload topics 0 = keccak256 OrderCreated_sig →
  state (order_at (store f) (mload topics 32)) ≠ NONEXISTENT →
  openOrder proof f = Revert "Order already exists" f.
Proof.
  intros Hv Hlen Hsel Hst.
  unfold Ledger.openOrder, bind, lift, require, sload_order.
  rewrite Hv. cbn -[abi_decode].
  rewrite (bool_decide_eq_true_2 _ Hlen), (bool_decide_eq_true_2 _ Hsel).
  cbn -[abi_decode]. by rewrite (bool_decide_eq_false_2 _ Hst).
Qed.

(** The reason [orderCompleted] gives for an order that is not OPEN. *)
Lemma orderCompleted_not_open proof f c e topics data :
  validateEvent proof = inr (c, e, topics, data) →
  (128 ≤ length topics)%nat →
  mload topics 0 = keccak256 Confirmation_sig →
  state (order_at (store f) (mload topics 32)) ≠ OPEN →
  orderCompleted proof f = Revert "Order not in open state" f.
Proof.
  intros Hv Hlen Hsel Hst.
  unfold Ledger.orderCompleted, bind, lift, require, sload_order.
  rewrite Hv. cbn -[abi_decode].
  rewrite (bool_decide_eq_true_2 _ Hlen), (bool_decide_eq_true_2 _ Hsel).
  cbn -[abi_decode]. by rewrite (bool_decide_eq_false_2 _ Hst).
Qed.

Lemma step_exists st c id :
  state (order_at st id) ≠ NONEXISTENT →
  state (order_at (step st c) id) ≠ NONEXISTENT.
Proof.
  intros Hs. destruct (step_orders st c) as [H|(id0 & o & H & Hk)].
  - unfold order_at. by rewrite H.
  - rewrite (order_at_orders_insert _ _ _ _ _ H).
    case_decide; [|done].
    destruct Hk as [(_ & -> & _)|(_ & ->)]; done.
Qed.

Lemma run_exists st cs id :
  state (order_at st id) ≠ NONEXISTENT →
  state (order_at (run st cs) id) ≠ NONEXISTENT.
Proof.
  revert st. induction cs as [|c cs IH]; intros st Hs; simpl; [done|].
  by apply IH, step_exists.
Qed.

(** X5. A proof cannot be used twice. After [openOrder] accepted a proof,
    every later [openOrder] with that proof, whatever calls came in
    between, reverts with "Order already exists"; after [orderCompleted]
    accepted a proof, every later [orderCompleted] with it reverts with
    "Order not in open state". *)
Theorem replayed_proof_rejected (st : Storage) (proof : list byte) (cs : list Call) :
  (reverted (transact (openOrder proof) st) = None →
   reverted (transact (openOrder proof)
               (run (post (transact (openOrder proof) st)) cs))
   = Some "Order already exists"%string)
  ∧ (reverted (transact (orderCompleted proof) st) = None →
     reverted (transact (orderCompleted proof)
                 (run (post (transact (orderCompleted proof) st)) cs))
     = Some "Order not in open state"%string).
Proof.
  split.
  - unfold transact at 1 3.
    destruct (openOrder proof (mkFrame st [])) as [u f'|r f'] eqn:E; [|done].
    intros _. simpl.
    apply LedgerProofs.openOrder_return in E
      as (c & e & topics & data & ws & Hv & Hlen & Hsel & _ & _ & ->).
    simpl. unfold transact.
    rewrite (openOrder_exists proof _ c e topics data); [done..|].
    simpl. apply run_exists.
    rewrite LedgerProofs.order_at_insert, decide_True by done. done.
  - unfold transact at 1 3.
    destruct (orderCompleted proof (mkFrame st [])) as [u f'|r f'] eqn:E; [|done].
    intros _. simpl.
    apply LedgerProofs.orderCompleted_return in E
      as (c & e & topics & data & ws & Hv & Hlen & Hsel & _ & _ & _ & ->).
    simpl. unfold transact.
    rewrite (orderCompleted_not_open proof _ c e topics data); [done..|].
    simpl. rewrite completed_is_final.
    + rewrite LedgerProofs.order_at_insert, decide_True by done. done.
    + rewrite LedgerProofs.order_at_insert, decide_True by done. done.
Qed.

(** X6. When the two event selectors differ, no proof serves both
    functions: a proof [openOrder] accepts is refused by [orderCompleted]
    in every storage, for its topics length or its signature, and a proof
    [orderCompleted] accepts is refused by [openOrder] for its signature. *)
Theorem proof_kinds_disjoint (st1 st2 : Storage) (proof : list byte) :
  keccak256 OrderCreated_sig ≠ keccak256 Confirmation_sig →
  (reverted (transact (openOrder proof) st1) = None →
   reverted (transact (orderCompleted proof) st2) = Some "Invalid topics length"%string
   ∨ reverted (transact (orderCompleted proof) st2)
     = Some "Invalid event signature"%string)
  ∧ (reverted (transact (orderCompleted proof) st1) = None →
     reverted (transact (openOrder proof) st2) = Some "Invalid event signature"%string).
Proof.
  intros Hsig. split.
  - unfold transact at 1.
    destruct (openOrder proof (mkFrame st1 [])) as [u f'|r f'] eqn:E; [|done].
    intros _.
    apply LedgerProofs.openOrder_return in E
      as (c & e & topics & data & ws & Hv & _ & Hsel & _).
    unfold transact, Ledger.orderCompleted, bind, lift, require.
    rewrite Hv. cbn -[abi_decode].
    case_bool_decide; [|by left]. cbn -[abi_decode].
    rewrite bool_decide_eq_false_2; [by right|].
    intros Heq. exact (Hsig (eq_trans (eq_sym Hsel) Heq)).
  - unfold transact at 1.
    destruct (orderCompleted proof (mkFrame st1 [])) as [u f'|r f'] eqn:E; [|done].
    intros _.
    apply LedgerProofs.orderCompleted_return in E
      as (c & e & topics & data & ws & Hv & Hlen & Hsel & _).
    unfold transact, Ledger.openOrder, bind, lift, require.
    rewrite Hv. cbn -[abi_decode].
    rewrite bool_decide_eq_true_2 by lia. cbn -[abi_decode].
    rewrite bool_decide_eq_false_2; [done|].
    intros Heq. exact (Hsig (eq_trans (eq_sym Heq) Hsel)).
Qed.

Lemma step_tidy st c : tidy st → tidy (step st c).
Proof.
  intros Ht id. destruct (step_orders st c) as [H|(id0 & o & H & Hk)].
  - unfold order_at. rewrite H. apply Ht.
  - rewrite (order_at_orders_insert _ _ _ _ _ H).
    case_decide; [|apply Ht].
    destruct Hk as [(_ & Ho & Hc)|(_ & Ho)]; rewrite Ho; by split.
Qed.

(** X7. On a ledger grown from the deployed contract by any calls, a
    NONEXISTENT order reads as the all-zero record and an OPEN order has
    confirmation id zero; any storage with this property keeps it. *)
Theorem ledger_records_tidy (cs : list Call) :
  tidy (run genesis cs)
  ∧ (∀ st, tidy st → tidy (run st cs)).
Proof.
  assert (H : ∀ st, tidy st → tidy (run st cs)).
  { induction cs as [|c cs IH]; intros st Ht; simpl; [done|].
    by apply IH, step_tidy. }
  split; [|done]. apply H. intros id. by split.
Qed.

Lemma step_authorized st c :
  authorizedContracts (step st c) = apply_authorize (authorizedContracts st) c.
Proof.
  unfold Ledger.step. destruct c as [ch a b|p|p]; simpl; [done| |].
  - apply LedgerProofs.transact_authorized. intros f u f' E.
    by apply LedgerProofs.openOrder_return in E as (?&?&?&?&?&_&_&_&_&_&->).
  - apply LedgerProofs.transact_authorized. intros f u f' E.
    by apply LedgerProofs.orderCompleted_return in E as (?&?&?&?&?&_&_&_&_&_&_&->).
Qed.

(** X8. Only [authorizeSourceContract] writes [authorizedContracts]: after
    any sequence of calls the mapping is the initial one with the
    authorize calls of the sequence applied in order (the last write to a
    pair wins), whatever [openOrder] and [orderCompleted] calls came in
    between and whoever made them. *)
Theorem authorizations_follow_authorize_calls (st : Storage) (cs : list Call) :
  authorizedContracts (run st cs) = foldl apply_authorize (authorizedContracts st) cs.
Proof.
  revert st. induction cs as [|c cs IH]; intros st; simpl; [done|].
  by rewrite IH, step_authorized.
Qed.

End Facts.

End LedgerMore.

(* ===================================================================== *)
(** * Further properties of the executor                                  *)
(* ===================================================================== *)

Module ExecutorMore.
Import JS Executor.

Section Facts.

Variable parseLog : Log → ParseResult.
Variable BigInt_of_string : string → option Z.
Variable axios_post : list (Payload * RelayOutcome) → Payload → ApiResult.

Abbreviation callExecutorAPI := (callExecutorAPI axios_post).
Abbreviation processOrderCreatedEvent :=
  (processOrderCreatedEvent parseLog BigInt_of_string axios_post).
Abbreviation processConfirmationEvent :=
  (processConfirmationEvent parseLog BigInt_of_string axios_post).
Abbreviation process := (process parseLog BigInt_of_string axios_post).
Abbreviation run := (run parseLog BigInt_of_string axios_post).
Abbreviation relays_for := (relays_for parseLog BigInt_of_string axios_post).
Abbreviation created_effect := (created_effect parseLog BigInt_of_string).
Abbreviation confirmation_effect := (confirmation_effect parseLog BigInt_of_string).
Abbreviation process_spec := (ExecutorProofs.process_spec parseLog BigInt_of_string axios_post).


(** A creation event that passes every test. *)
Lemma created_relays log s args d event :
  transactionHash log ∉ processedTxs s →
  parseLog log = Parsed args →
  args !! 1%nat = Some (VStr d) →
  destination_matches args = true →
  mkOrderCreatedEvent BigInt_of_string d args = Some event →
  ∃ o, final (processOrderCreatedEvent log s) =
       mkState ({[transactionHash log]} ∪ processedTxs s)
         ({[Created.id event]} ∪ pendingOrderIdsFromUnichain s)
         (relayed s ++ [(relay_request UNICHAIN_ID log "openOrder", o)]).
Proof.
  intros Hnew Hparse H1 Hdest Hev.
  destruct (ExecutorProofs.processOrderCreatedEvent_spec parseLog BigInt_of_string
              axios_post log s) as (s' & -> & He).
  destruct He as [?|? Hdrop|args' d' event' o ? Hparse' H1' _ Hev']; simpl; [done| |].
  - destruct (Hdrop _ Hparse) as [?|(d' & ? & ?)]; [congruence|]. by simplify_eq.
  - rewrite Hparse in Hparse'. simplify_eq. eauto.
Qed.

(** A confirmation event whose key is pending. *)
Lemma confirmation_relays log s args event :
  transactionHash log ∉ processedTxs s →
  parseLog log = Parsed args →
  mkConfirmationEvent BigInt_of_string args = Some event →
  Confirmation.id event ∈ pendingOrderIdsFromUnichain s →
  ∃ o, final (processConfirmationEvent log s) =
       mkState ({[transactionHash log]} ∪ processedTxs s)
         (pendingOrderIdsFromUnichain s ∖ {[Confirmation.id event]})
         (relayed s ++ [(relay_request BASE_ID log "orderCompleted", o)]).
Proof.
  intros Hnew Hparse Hev Hin.
  destruct (ExecutorProofs.processConfirmationEvent_spec parseLog BigInt_of_string
              axios_post log s) as (s' & -> & He).
  destruct He as [?|? Hdrop|args' event' o ? Hparse' Hev' _]; simpl; [done| |].
  - by destruct (Hdrop _ _ Hparse Hev).
  - rewrite Hparse in Hparse'. simplify_eq. eauto.
Qed.

(** A confirmation event whose key is not pending sends nothing. *)
Lemma orphan_sends_nothing log s args event :
  parseLog log = Parsed args →
  mkConfirmationEvent BigInt_of_string args = Some event →
  Confirmation.id event ∉ pendingOrderIdsFromUnichain s →
  relayed (final (processConfirmationEvent log s)) = relayed s.
Proof.
  intros Hparse Hev Hout.
  destruct (ExecutorProofs.processConfirmationEvent_spec parseLog BigInt_of_string
              axios_post log s) as (s' & -> & He).
  destruct He as [?|? Hdrop|args' event' o ? Hparse' Hev' Hin]; simpl; [done..|].
  rewrite Hparse in Hparse'. by simplify_eq.
Qed.

(** X10. A confirmation that arrives while its order key is not pending is
    never relayed: its first delivery sends nothing, and since it marks the
    transaction hash as processed, no later delivery of that event sends
    anything either, even after the creation event for the key has been
    seen. *)
Theorem orphan_confirmation_never_relayed (log : Log) (s : State)
    (args : list ArgVal) (event : Confirmation.t) (ds : list (Kind * Log)) :
  parseLog log = Parsed args →
  mkConfirmationEvent BigInt_of_string args = Some event →
  Confirmation.id event ∉ pendingOrderIdsFromUnichain s →
  relays_for (transactionHash log) (index log) ((Confirm, log) :: ds) s = 0%nat.
Proof.
  intros Hparse Hev Hout.
  change (relays_for (transactionHash log) (index log) ((Confirm, log) :: ds) s)
    with ((if bool_decide (transactionHash log = transactionHash log
                           ∧ index log = index log)
           then length (relayed (final (processConfirmationEvent log s)))
                - length (relayed s)
           else 0)
          + relays_for (transactionHash log) (index log) ds
              (final (processConfirmationEvent log s)))%nat.
  rewrite (orphan_sends_nothing log s args event) by done.
  rewrite Nat.sub_diag.
  destruct (process_spec Confirm log s) as (s' & Hp & Hin & _).
  change (process Confirm log s) with (processConfirmationEvent log s) in Hp.
  rewrite Hp. cbn [final].
  rewrite (proj2 (ExecutorProofs.relays_for_bound parseLog BigInt_of_string axios_post
                    _ _ ds s')) by done.
  by case_bool_decide.
Qed.

(** X11. Deduplication is by transaction hash alone, across both
    processors: once one event of a transaction has been delivered, every
    other event of the same transaction (whatever its log index or kind)
    is skipped, leaving the state untouched. *)
Theorem same_transaction_events_skipped (s : State) (k1 k2 : Kind)
    (log1 log2 : Log) (ds : list (Kind * Log)) :
  transactionHash log2 = transactionHash log1 →
  let s1 := run ds (final (process k1 log1 s)) in
  process k2 log2 s1 = Normal s1.
Proof.
  intros Hh s1. apply ExecutorProofs.process_skips. subst s1.
  apply ExecutorProofs.run_processed_mono. rewrite Hh.
  by destruct (process_spec k1 log1 s) as (s' & -> & Hin & _).
Qed.

(** X12. Correlation round trip: a creation event that passes the filter,
    followed by the confirmation event for the same key, sends an
    "openOrder" request and then an "orderCompleted" request, and leaves
    the key out of the pending set. *)
Theorem creation_then_confirmation (s : State) (log1 log2 : Log)
    (args1 args2 : list ArgVal) (d : string)
    (created : Created.t) (confirmed : Confirmation.t) :
  transactionHash log1 ∉ processedTxs s →
  transactionHash log2 ∉ processedTxs s →
  transactionHash log1 ≠ transactionHash log2 →
  parseLog log1 = Parsed args1 →
  args1 !! 1%nat = Some (VStr d) →
  destination_matches args1 = true →
  mkOrderCreatedEvent BigInt_of_string d args1 = Some created →
  parseLog log2 = Parsed args2 →
  mkConfirmationEvent BigInt_of_string args2 = Some confirmed →
  Confirmation.id confirmed = Created.id created →
  let s2 := run [(Creation, log1); (Confirm, log2)] s in
  (∃ o1 o2,
     relayed s2 = relayed s ++
       [(relay_request UNICHAIN_ID log1 "openOrder", o1);
        (relay_request BASE_ID log2 "orderCompleted", o2)])
  ∧ (Created.id created ∉ pendingOrderIdsFromUnichain s2)
  ∧ pendingOrderIdsFromUnichain s2
    = pendingOrderIdsFromUnichain s ∖ {[Created.id created]}.
Proof.
  intros Hn1 Hn2 Hne Hp1 H1 Hd Hc Hp2 Hm Hid s2. subst s2.
  change (run [(Creation, log1); (Confirm, log2)] s)
    with (final (processConfirmationEvent log2
                   (final (processOrderCreatedEvent log1 s)))).
  destruct (created_relays log1 s args1 d created) as [o1 ->]; [done..|].
  destruct (confirmation_relays log2
              (mkState ({[transactionHash log1]} ∪ processedTxs s)
                 ({[Created.id created]} ∪ pendingOrderIdsFromUnichain s)
                 (relayed s ++ [(relay_request UNICHAIN_ID log1 "openOrder", o1)]))
              args2 confirmed) as [o2 ->]; simpl; [| done..| |].
  - intros [Hin|Hin]%elem_of_union; [|done].
    apply elem_of_singleton in Hin. congruence.
  - rewrite Hid. apply elem_of_union_l. by apply elem_of_singleton.
  - rewrite Hid. split_and!.
    + exists o1, o2. by rewrite <- app_assoc.
    + intros [_ Hn]%elem_of_difference. apply Hn. by apply elem_of_singleton.
    + apply set_eq. intros x.
      rewrite !elem_of_difference, elem_of_union, elem_of_singleton. tauto.
Qed.

Lemma process_counts k log s :
  (length (relayed (final (process k log s))) + size (processedTxs s)
   ≤ length (relayed s) + size (processedTxs (final (process k log s))))%nat.
Proof.
  assert (Hsz : ∀ h (X : gset string), h ∉ X → size ({[h]} ∪ X) = S (size X)).
  { intros h X Hh. rewrite size_union by (by apply disjoint_singleton_l).
    by rewrite size_singleton. }
  destruct k.
  - change (process Creation log s) with (processOrderCreatedEvent log s).
    destruct (ExecutorProofs.processOrderCreatedEvent_spec parseLog BigInt_of_string
                axios_post log s) as (s' & -> & He).
    destruct He; simpl; rewrite ?Hsz, ?length_app by done; simpl; lia.
  - change (process Confirm log s) with (processConfirmationEvent log s).
    destruct (ExecutorProofs.processConfirmationEvent_spec parseLog BigInt_of_string
                axios_post log s) as (s' & -> & He).
    destruct He; simpl; rewrite ?Hsz, ?length_app by done; simpl; lia.
Qed.

(** X13. Over any sequence of deliveries the executor sends at most one
    request per transaction hash it newly marks as processed: the number of
    requests sent never exceeds the growth of the processed set. *)
Theorem requests_bounded_by_processed (ds : list (Kind * Log)) (s : State) :
  (length (relayed (run ds s)) + size (processedTxs s)
   ≤ length (relayed s) + size (processedTxs (run ds s)))%nat.
Proof.
  revert s. induction ds as [|[k log] ds IH]; intros s; [simpl; lia|].
  specialize (IH (final (process k log s))).
  pose proof (process_counts k log s) as Hc.
  change (run ((k, log) :: ds) s) with (run ds (final (process k log s))).
  lia.
Qed.

Lemma run_app ds1 ds2 s : run (ds1 ++ ds2) s = run ds2 (run ds1 s).
Proof. unfold Executor.run. apply foldl_app. Qed.

(** X26. One tick is a sequential composition: when both chains answer, it
    hands all Unichain logs to [processOrderCreatedEvent] and then all Base
    logs to [processConfirmationEvent], each batch in the order of its
    answer and on the state the previous deliveries left, and it moves both
    watermarks to the current heights. A creation and its confirmation
    found in the same tick therefore meet in that order. *)
Theorem tick_delivers_unichain_then_base
    (unichainProvider baseProvider : Provider) (unichainContract baseContract : Contract)
    (w : Watermarks) (s : State) (hu hb : Z) (tu tb : string) (logsU logsB : list Log) :
  getBlockNumber unichainProvider = Some hu →
  lastUnichainBlock w < hu →
  getEvent unichainContract "OrderCreated" = Some tu →
  getLogs unichainProvider
    (mkFilter (lastUnichainBlock w + 1) hu (target unichainContract) [tu])
  = Some logsU →
  getBlockNumber baseProvider = Some hb →
  lastBaseBlock w < hb →
  getEvent baseContract "Confirmation" = Some tb →
  getLogs baseProvider
    (mkFilter (lastBaseBlock w + 1) hb (target baseContract) [tb])
  = Some logsB →
  let '(w', r1, r2) :=
    tick parseLog BigInt_of_string axios_post unichainProvider baseProvider
      unichainContract baseContract w s in
  w' = mkWatermarks hu hb
  ∧ delivered r1 = logsU
  ∧ delivered r2 = logsB
  ∧ after r2 = run (((Creation,.) <$> logsU) ++ ((Confirm,.) <$> logsB)) s.
Proof.
  intros Hu Hlu Heu Hgu Hb Hlb Heb Hgb.
  unfold tick, pollForEvents.
  rewrite Hu, Heu. rewrite (bool_decide_eq_false_2 (hu ≤ _)) by lia. rewrite Hgu.
  change (Executor.processOrderCreatedEvent parseLog BigInt_of_string axios_post)
    with (process Creation).
  rewrite (ExecutorProofs.deliver_process parseLog BigInt_of_string axios_post).
  cbn [after watermark delivered].
  rewrite Hb, Heb. rewrite (bool_decide_eq_false_2 (hb ≤ _)) by lia. rewrite Hgb.
  change (Executor.processConfirmationEvent parseLog BigInt_of_string axios_post)
    with (process Confirm).
  rewrite (ExecutorProofs.deliver_process parseLog BigInt_of_string axios_post).
  cbn [after watermark delivered]. by rewrite run_app.
Qed.

End Facts.

(** ** The polling loop *)

(** X14. A poll that cannot reach new logs does nothing: when the height
    query fails, there is no block after the watermark, the event is not in
    the ABI or the log query fails, [pollForEvents] returns the watermark
    it was given, calls the processor on nothing and leaves the state as it
    was. *)
Theorem poll_without_logs_is_noop (provider : Provider) (contract : Contract)
    (eventName : string) (processor : Log → State → Completion State)
    (lastProcessedBlock : Z) (s : State) :
  getBlockNumber provider = None
  ∨ (∃ currentBlock, getBlockNumber provider = Some currentBlock
                     ∧ currentBlock ≤ lastProcessedBlock)
  ∨ getEvent contract eventName = None
  ∨ (∀ f, getLogs provider f = None) →
  let r := pollForEvents provider contract eventName processor lastProcessedBlock s in
  watermark r = lastProcessedBlock ∧ after r = s ∧ delivered r = [].
Proof.
  intros H r. subst r. unfold pollForEvents.
  destruct (getBlockNumber provider) as [cur|]; [|done].
  case_bool_decide as Hle; [done|].
  destruct (getEvent contract eventName) as [th|]; [|done].
  destruct H as [?|[(c & [= <-] & ?)|[?|Hl]]]; [done|lia|done|].
  by rewrite Hl.
Qed.

(** X15. The watermark never moves backwards, and a poll that queries logs
    asks for exactly the blocks from the watermark plus one to the current
    height, at the contract's address. When the watermark does move, it
    moves to that current height and every log of the answer was handed to
    the processor, in the order of the answer. *)
Theorem poll_watermark_and_range (provider : Provider) (contract : Contract)
    (eventName : string) (processor : Log → State → Completion State)
    (lastProcessedBlock : Z) (s : State) :
  let r := pollForEvents provider contract eventName processor lastProcessedBlock s in
  lastProcessedBlock ≤ watermark r
  ∧ (∀ f, queried r = Some f →
       fromBlock f = lastProcessedBlock + 1
       ∧ getBlockNumber provider = Some (toBlock f)
       ∧ lastProcessedBlock < toBlock f
       ∧ address f = target contract)
  ∧ (watermark r ≠ lastProcessedBlock →
     ∃ f logs, queried r = Some f ∧ getLogs provider f = Some logs
               ∧ watermark r = toBlock f ∧ delivered r = logs).
Proof.
  intros r. subst r. unfold pollForEvents.
  destruct (getBlockNumber provider) as [cur|]; [|simpl; split_and!; [lia|done|done]].
  case_bool_decide as Hle; [simpl; split_and!; [lia|done|done]|].
  destruct (getEvent contract eventName) as [th|]; [|simpl; split_and!; [lia|done|done]].
  set (f := mkFilter _ _ _ _).
  assert (Hf : fromBlock f = lastProcessedBlock + 1 ∧ Some cur = Some (toBlock f)
               ∧ lastProcessedBlock < toBlock f ∧ address f = target contract)
    by (subst f; simpl; split_and!; [done..|lia|done]).
  destruct (getLogs provider f) as [logs|] eqn:Hl.
  - pose proof (ExecutorProofs.deliver_prefix processor logs s) as [_ Hall].
    destruct (deliver processor logs s) as [[s'|s'] done]; simpl in *.
    + split_and!; [lia|by intros ? [= <-]|].
      intros _. exists f, logs. by rewrite Hall.
    + split_and!; [lia|by intros ? [= <-]|done].
  - simpl. split_and!; [lia|by intros ? [= <-]|done].
Qed.

(** ** The destination filter *)

Lemma prefix_app (p s : string) :
  String.prefix p s = true ↔ ∃ rest, s = (p +:+ rest)%string.
Proof.
  revert s. induction p as [|a p IH]; intros s; simpl.
  - destruct s; split; eauto.
  - destruct s as [|b s]; simpl.
    + split; [done|]. intros [rest H].
      change (EmptyString = String a (p +:+ rest)) in H. done.
    + destruct (Ascii.ascii_dec a b) as [->|Hne].
      * rewrite IH. split; intros [rest H]; exists rest.
        -- subst s. reflexivity.
        -- change (String b s = String b (p +:+ rest)) in H. congruence.
      * split; [done|]. intros [rest H].
        change (String b s = String a (p +:+ rest)) in H. congruence.
Qed.

(** X16. The destination filter accepts exactly the second argument that
    is a string whose lower-case form starts with [0x62617374]: the
    characters after the prefix and the case of the letters do not matter
    (a 32-byte value and an upper-case [0X] pass), and a missing argument or
    a number is refused. *)
Theorem destination_filter_exact (args : list ArgVal) :
  (destination_matches args = true
   ↔ ∃ d rest, args !! 1%nat = Some (VStr d)
               ∧ toLowerCase d = ("0x62617374" +:+ rest)%string)
  ∧ (∀ first rest others,
       destination_matches (first :: VStr ("0X62617374" +:+ rest) :: others) = true)
  ∧ (∀ first n others, destination_matches (first :: VInt n :: others) = false)
  ∧ (∀ first, destination_matches [first] = false).
Proof.
  assert (Hiff : ∀ l, destination_matches l = true
                 ↔ ∃ d rest, l !! 1%nat = Some (VStr d)
                             ∧ toLowerCase d = ("0x62617374" +:+ rest)%string).
  { intros l. unfold destination_matches, startsWith,
      expectedBaseDestinationHexPrefix.
    destruct (l !! 1%nat) as [[d|n]|].
    - rewrite prefix_app. split.
      + intros [rest ?]. eauto.
      + intros (d' & rest & [= <-] & ?). eauto.
    - split; [done|]. by intros (? & ? & ? & _).
    - split; [done|]. by intros (? & ? & ? & _). }
  split_and!; [apply Hiff| | |].
  - intros first rest others. apply Hiff.
    exists ("0X62617374" +:+ rest)%string, (toLowerCase rest). by split.
  - done.
  - done.
Qed.

End ExecutorMore.

(* ===================================================================== *)
(** * Further properties of the hub listener                              *)
(* ===================================================================== *)

Module ListenerMore.
Import JS Listener Derived.

Section Facts.

Variable BigInt_of_string : string → option Z.

Abbreviation processHubEvent := (processHubEvent BigInt_of_string).
Abbreviation deliver := (deliver BigInt_of_string).
Abbreviation pollForHubEvents := (pollForHubEvents BigInt_of_string).
Abbreviation startHubListener := (startHubListener BigInt_of_string).
Abbreviation printer := (printer BigInt_of_string).

(** [processHubEvent], by cases. *)
Lemma processHubEvent_cases e s :
  (eventUniqueId e ∈ processedEventIds s ∧ processHubEvent e s = Normal s)
  ∨ ((eventUniqueId e ∉ processedEventIds s) ∧ args e = None
     ∧ processHubEvent e s = Normal s)
  ∨ (∃ a, (eventUniqueId e ∉ processedEventIds s) ∧ args e = Some a
          ∧ match printer (eventName e) with
            | Some mk =>
              match mk a with
              | Some t =>
                processHubEvent e s
                = Normal (add_processed (eventUniqueId e) (print t s))
              | None => processHubEvent e s = Throws s
              end
            | None =>
              processHubEvent e s = Normal (add_processed (eventUniqueId e) s)
            end).
Proof.
  unfold Listener.processHubEvent, Derived.printer.
  fold (eventUniqueId e).
  case_bool_decide as Hin; [by left|].
  destruct (args e) as [a|]; [|right; by left].
  right. right. exists a. split_and!; [done..|].
  repeat case_bool_decide; simpl; try done;
    match goal with |- context [match ?x with _ => _ end] => by destruct x end.
Qed.

(** A delivery only adds to the processed set and to the console. *)
Lemma processHubEvent_grows e s :
  processedEventIds s ⊆ processedEventIds (final (processHubEvent e s))
  ∧ console s `prefix_of` console (final (processHubEvent e s)).
Proof.
  destruct (processHubEvent_cases e s) as [[_ ->]|[(_ & _ & ->)|(a & _ & _ & H)]];
    [done..|].
  destruct (printer (eventName e)) as [mk|]; [destruct (mk a) as [t|]|];
    rewrite H; simpl; split; try done;
    try apply union_subseteq_r; by apply prefix_app_r.
Qed.

Lemma deliver_grows es s :
  processedEventIds s ⊆ processedEventIds (final (deliver es s).1)
  ∧ console s `prefix_of` console (final (deliver es s).1).
Proof.
  revert s. induction es as [|e es IH]; intros s; simpl; [done|].
  pose proof (processHubEvent_grows e s) as [H1 H2].
  destruct (processHubEvent e s) as [s'|s']; simpl in *; [|done].
  destruct (IH s') as [IH1 IH2].
  destruct (deliver es s') as [c done]; simpl in *.
  split; by etrans.
Qed.

(** X17. A hub event that has been printed, or has a name the listener
    does not print, is marked by transaction hash and log index: every
    later delivery of it, after any other events, returns at once and
    prints nothing. (An event without decoded arguments is never marked.) *)
Theorem hub_event_handled_once (e : EventLog) (s s1 : State) (es : list EventLog) :
  is_Some (args e) →
  processHubEvent e s = Normal s1 →
  let s2 := final (deliver es s1).1 in
  processHubEvent e s2 = Normal s2.
Proof.
  intros [a Ha] Hp s2.
  assert (Hin : eventUniqueId e ∈ processedEventIds s1).
  { destruct (processHubEvent_cases e s)
      as [[Hin H]|[(_ & Hn & _)|(a' & _ & _ & H)]]; [|congruence|].
    - rewrite H in Hp. by simplify_eq.
    - destruct (printer (eventName e)) as [mk|]; [destruct (mk a') as [t|]|];
        rewrite H in Hp; simplify_eq; simpl;
        apply elem_of_union_l; by apply elem_of_singleton. }
  destruct (processHubEvent_cases e s2) as [[_ H]|[(Hn & _)|(? & Hn & _)]];
    [done|exfalso..]; apply Hn, (proj1 (deliver_grows es s1)), Hin.
Qed.

(** Within one transaction the key tells the log indices apart. *)
Lemma eventUniqueId_index e1 e2 :
  transactionHash e1 = transactionHash e2 →
  eventUniqueId e1 = eventUniqueId e2 →
  index e1 = index e2.
Proof.
  unfold eventUniqueId. intros -> H.
  apply (inj (String.app _)) in H. apply (inj (String.app _)) in H.
  by apply (inj pretty) in H.
Qed.

(** X18. Unlike the executor, the listener tells the events of one
    transaction apart: two events with the same transaction hash and
    different log indices, both decodable and not yet processed, are both
    printed, in the order delivered. *)
Theorem hub_events_of_one_transaction (e1 e2 : EventLog) (s : State)
    (a1 a2 : gmap string ArgVal)
    (mk1 mk2 : gmap string ArgVal → option TypedEvent) (t1 t2 : TypedEvent) :
  transactionHash e1 = transactionHash e2 →
  index e1 ≠ index e2 →
  eventUniqueId e1 ∉ processedEventIds s →
  eventUniqueId e2 ∉ processedEventIds s →
  args e1 = Some a1 → printer (eventName e1) = Some mk1 → mk1 a1 = Some t1 →
  args e2 = Some a2 → printer (eventName e2) = Some mk2 → mk2 a2 = Some t2 →
  (deliver [e1; e2] s).2 = [e1; e2]
  ∧ threw (deliver [e1; e2] s).1 = false
  ∧ console (final (deliver [e1; e2] s).1) = console s ++ [t1; t2].
Proof.
  intros Htx Hidx Hn1 Hn2 Ha1 Hp1 Hm1 Ha2 Hp2 Hm2.
  assert (H1 : processHubEvent e1 s
               = Normal (add_processed (eventUniqueId e1) (print t1 s))).
  { destruct (processHubEvent_cases e1 s) as [[? _]|[(_ & ? & _)|(a & _ & Ha & H)]];
      [done|congruence|].
    rewrite Ha1 in Ha. simplify_eq. by rewrite Hp1, Hm1 in H. }
  set (s1 := add_processed (eventUniqueId e1) (print t1 s)) in *.
  assert (H2 : processHubEvent e2 s1
               = Normal (add_processed (eventUniqueId e2) (print t2 s1))).
  { destruct (processHubEvent_cases e2 s1)
      as [[Hin _]|[(_ & ? & _)|(a & _ & Ha & H)]]; [|congruence|].
    - exfalso. subst s1. simpl in Hin.
      apply elem_of_union in Hin as [Hin|Hin]; [|done].
      apply elem_of_singleton in Hin.
      by apply Hidx, eventUniqueId_index.
    - rewrite Ha2 in Ha. simplify_eq. by rewrite Hp2, Hm2 in H. }
  change (deliver [e1; e2] s)
    with (match processHubEvent e1 s with
          | Normal s' =>
            let '(c, done) := deliver [e2] s' in (c, e1 :: done)
          | Throws s' => (Throws s', [e1])
          end).
  rewrite H1.
  change (deliver [e2] s1)
    with (match processHubEvent e2 s1 with
          | Normal s' => let '(c, done) := deliver [] s' in (c, e2 :: done)
          | Throws s' => (Throws s', [e2])
          end).
  rewrite H2. simpl. split_and!; [done..|]. by rewrite <- app_assoc.
Qed.

(** X19. How a poll that fetched its batch leaves the watermark: if the
    conversion of some event throws, [lastPolledBlock] stays where the poll
    found it (the catch-up start on a first poll), so the same range is
    fetched again by the next poll; otherwise it becomes the current
    height. *)
Theorem hub_watermark_after_batch (env : Env) (s : State) (currentBlock : Z)
    (eventArrays : list (list EventLog)) :
  initialised env = true →
  has_filters env = true →
  (∀ n, n ∈ hub_filters → filter_available env n = true) →
  getBlockNumber env = Some currentBlock →
  lastPolledBlock (effective currentBlock s) < currentBlock →
  mapM (λ n, queryFilter env n (lastPolledBlock (effective currentBlock s) + 1)
               currentBlock) hub_filters = Some eventArrays →
  let c := (deliver (sortEvents (concat eventArrays)) (effective currentBlock s)).1 in
  lastPolledBlock (after (pollForHubEvents env s))
  = (if threw c then lastPolledBlock (effective currentBlock s) else currentBlock)
  ∧ processedEventIds (after (pollForHubEvents env s)) = processedEventIds (final c)
  ∧ console (after (pollForHubEvents env s)) = console (final c).
Proof.
  intros Hinit Hfil Hav Hh Hlt Hq c. subst c.
  unfold Listener.pollForHubEvents.
  rewrite Hinit, Hfil, Hh. cbn [negb].
  fold (effective currentBlock s).
  rewrite bool_decide_eq_false_2 by lia.
  rewrite !Hav by (unfold hub_filters; set_solver). cbn [negb andb].
  fold hub_filters. rewrite Hq.
  pose proof (PollerProofs.hub_deliver_watermark BigInt_of_string
                (sortEvents (concat eventArrays)) (effective currentBlock s)) as Hw.
  destruct (deliver _ _) as [[s2|s2] done]; simpl in *; by rewrite ?Hw.
Qed.

(** X20. The listener's watermark never moves backwards, whatever the
    poll met; and a poll that finds no block after a stored watermark
    changes nothing and queries nothing. *)
Theorem hub_watermark_monotone (env : Env) (s : State) :
  -1 ≤ lastPolledBlock s →
  lastPolledBlock s ≤ lastPolledBlock (after (pollForHubEvents env s))
  ∧ (∀ currentBlock,
       getBlockNumber env = Some currentBlock →
       lastPolledBlock s ≠ -1 →
       currentBlock ≤ lastPolledBlock s →
       pollForHubEvents env s = mkPollResult s [] []).
Proof.
  intros Hm1. split.
  - unfold Listener.pollForHubEvents.
    destruct (initialised env); cbn [negb]; [|simpl; lia].
    destruct (has_filters env); cbn [negb]; [|simpl; lia].
    destruct (getBlockNumber env) as [cur|]; [|simpl; lia].
    fold (effective cur s).
    assert (He : lastPolledBlock s ≤ lastPolledBlock (effective cur s)).
    { unfold effective, CATCH_UP_BLOCK_COUNT. case_bool_decide; simpl; lia. }
    case_bool_decide; [simpl; lia|].
    destruct (_ && _ && _); cbn [negb]; [|simpl; lia].
    match goal with |- context [mapM ?f ?l] =>
      destruct (mapM f l) as [eventArrays|] end; [|simpl; lia].
    pose proof (PollerProofs.hub_deliver_watermark BigInt_of_string
                  (sortEvents (concat eventArrays)) (effective cur s)) as Hw.
    destruct (deliver _ _) as [[s2|s2] done]; simpl in *; lia.
  - intros cur Hh Hset Hle. unfold Listener.pollForHubEvents.
    destruct (initialised env); cbn [negb]; [|done].
    destruct (has_filters env); cbn [negb]; [|done].
    rewrite Hh. rewrite (bool_decide_eq_false_2 _ Hset).
    by rewrite bool_decide_eq_true_2.
Qed.


Lemma deliver_app es1 es2 s :
  deliver (es1 ++ es2) s =
  match (deliver es1 s).1 with
  | Normal s1 => ((deliver es2 s1).1, (deliver es1 s).2 ++ (deliver es2 s1).2)
  | Throws s1 => (Throws s1, (deliver es1 s).2)
  end.
Proof.
  revert s. induction es1 as [|e es1 IH]; intros s.
  - cbn. by destruct (deliver es2 s).
  - cbn. destruct (processHubEvent e s) as [s'|s']; [|done].
    rewrite IH. destruct (deliver es1 s') as [[s1|s1] done1]; cbn; [|done].
    by destruct (deliver es2 s1).
Qed.

(** X25. A hub event whose arguments cannot be converted aborts the batch
    without a trace of its own: it is neither printed nor marked as
    processed, the events before it stay printed and marked, and the events
    after it are not delivered. *)
Theorem hub_batch_aborts_at_failure (es1 es2 : list EventLog) (e : EventLog)
    (s : State) (a : gmap string ArgVal)
    (mk : gmap string ArgVal → option TypedEvent) :
  threw (deliver es1 s).1 = false →
  eventUniqueId e ∉ processedEventIds (final (deliver es1 s).1) →
  args e = Some a →
  printer (eventName e) = Some mk →
  mk a = None →
  deliver (es1 ++ e :: es2) s
  = (Throws (final (deliver es1 s).1), (deliver es1 s).2 ++ [e]).
Proof.
  intros Hok Hnew Ha Hp Hm. rewrite deliver_app.
  destruct (deliver es1 s) as [[s1|s1] done1]; [|done]. cbn in *.
  destruct (processHubEvent_cases e s1) as [[? _]|[(_ & ? & _)|(a' & _ & Ha' & H)]];
    [done|congruence|].
  rewrite Ha in Ha'. simplify_eq. rewrite Hp, Hm in H. by rewrite H.
Qed.

End Facts.

(** X22. The order of delivery does not depend on the order of the answers:
    two batches holding the same events, no two of them with the same block
    number and log index, are sorted to the same list. *)
Theorem sort_independent_of_source_order (l1 l2 : list EventLog) :
  l1 ≡ₚ l2 →
  (∀ x y, x ∈ l1 → y ∈ l1 →
     blockNumber x = blockNumber y → index x = index y → x = y) →
  sortEvents l1 = sortEvents l2.
Proof.
  intros Hperm Hkey.
  apply (StronglySorted_unique_strong event_le).
  - intros x y Hx Hy Hxy Hyx.
    unfold sortEvents in Hx, Hy.
    rewrite (merge_sort_Permutation event_le l1) in Hx.
    rewrite (merge_sort_Permutation event_le l2), <- Hperm in Hy.
    apply PollerProofs.event_le_before in Hxy, Hyx.
    unfold before in *. apply Hkey; [done..|lia|lia].
  - apply (@StronglySorted_merge_sort _ event_le _
             PollerProofs.event_le_trans PollerProofs.event_le_total).
  - apply (@StronglySorted_merge_sort _ event_le _
             PollerProofs.event_le_trans PollerProofs.event_le_total).
  - unfold sortEvents. by rewrite !merge_sort_Permutation.
Qed.

End ListenerMore.

(* ===================================================================== *)
(** * Properties of the scripts                                           *)
(* ===================================================================== *)

Module ScriptsProofs.
Import Scripts.

Lemma proof_of_answer q proofResponse :
  proof_of proofResponse = None →
  proof_of (match q with
            | QueryThrows => proofResponse
            | QueryAnswer result => Some result
            end) = answer_proof q.
Proof. by destruct q. Qed.

(** The loop started without a proof, after [attempts] queries. *)
Lemma queryLoop_spec query remaining attempts proofResponse :
  proof_of proofResponse = None →
  let r := queryLoop query remaining attempts proofResponse in
  match proof_of r.1 with
  | Some p =>
    (attempts < r.2 ≤ attempts + remaining)%nat
    ∧ answer_proof (query r.2) = Some p
    ∧ ∀ m, (attempts < m < r.2)%nat → answer_proof (query m) = None
  | None =>
    r.2 = (attempts + remaining)%nat
    ∧ ∀ m, (attempts < m ≤ attempts + remaining)%nat → answer_proof (query m) = None
  end.
Proof.
  revert attempts proofResponse.
  induction remaining as [|remaining IH]; intros attempts proofResponse Hnone; simpl.
  - rewrite Hnone. simpl. rewrite Hnone. split; [lia|]. intros m ?. lia.
  - rewrite Hnone.
    pose proof (proof_of_answer (query (S attempts)) proofResponse Hnone) as Hq.
    destruct (proof_of (match query (S attempts) with
                        | QueryThrows => proofResponse
                        | QueryAnswer result => Some result
                        end)) as [p|] eqn:Hp.
    + simpl. rewrite Hp. split_and!; [lia|lia|done|]. intros m ?. lia.
    + specialize (IH (S attempts) _ Hp). simpl in IH.
      destruct (proof_of (queryLoop query remaining (S attempts) _).1) as [p|].
      * destruct IH as (Hn & Ha & Hbefore). split_and!; [lia|lia|done|].
        intros m Hm. destruct (decide (m = S attempts)) as [->|]; [done|].
        apply Hbefore. lia.
      * destruct IH as (Hn & Hall). split; [lia|].
        intros m Hm. destruct (decide (m = S attempts)) as [->|]; [done|].
        apply Hall. lia.
Qed.

(** X23. Waiting for the proof is bounded and stops at the first proof: it
    returns a proof after [n] queries exactly when [n] is at most 30, the
    [n]-th answer carries a non-empty proof and no earlier answer does; it
    fails, after 30 queries, exactly when none of the first 30 answers
    carries one. A query that throws counts as an answer without proof. *)
Theorem waitForProof_first_proof (query : nat → QueryResult) :
  (∀ p n,
     waitForProof query = inr (p, n)
     ↔ (1 ≤ n ≤ 30)%nat ∧ answer_proof (query n) = Some p
       ∧ ∀ m, (1 ≤ m < n)%nat → answer_proof (query m) = None)
  ∧ (waitForProof query = inl "Failed to get proof after maximum attempts"%string
     ↔ ∀ m, (1 ≤ m ≤ 30)%nat → answer_proof (query m) = None)
  ∧ ((queryLoop query maxAttempts 0 None).2 ≤ 30)%nat.
Proof.
  pose proof (queryLoop_spec query maxAttempts 0 None eq_refl) as H.
  cbv zeta in H. unfold waitForProof.
  destruct (queryLoop query maxAttempts 0 None) as [resp k].
  cbn [fst snd] in H |- *. unfold maxAttempts in H.
  destruct (proof_of resp) as [q|].
  - destruct H as (Hk & Hq & Hbefore). split; [|split; [split; [done|]|lia]].
    + intros p n. split.
      * intros [= <- <-]. split; [lia|]. split; [done|].
        intros m ?. apply Hbefore. lia.
      * intros (Hn & Hp & Hb).
        destruct (Nat.lt_trichotomy n k) as [Hlt|[->|Hgt]].
        -- rewrite Hbefore in Hp by lia. done.
        -- by simplify_eq.
        -- rewrite Hb in Hq by lia. done.
    + intros Hall. rewrite Hall in Hq by lia. done.
  - destruct H as (-> & Hall). split; [|split; [split; [|done]|lia]].
    + intros p n. split; [done|]. intros (Hn & Hp & _).
      rewrite Hall in Hp by lia. done.
    + intros _ m ?. apply Hall. lia.
Qed.

Lemma env_get_Some env k url :
  env_get env k = Some url → url ≠ ""%string ∧ env !! k = Some url.
Proof.
  unfold env_get. destruct (env !! k) as [v|]; simpl; [|done].
  case_bool_decide; [done|]. by intros [= ->].
Qed.

Lemma first_set_Some env envVars url :
  first_set env envVars = Some url →
  ∃ k, k ∈ envVars ∧ env_get env k = Some url.
Proof.
  induction envVars as [|k rest IH]; simpl; [done|].
  destruct (env_get env k) as [u|] eqn:Hk.
  - intros [= ->]. exists k. split; [left|done].
  - intros H. destruct (IH H) as (k' & ? & ?). exists k'. split; [by right|done].
Qed.


End ScriptsProofs.

(* ===================================================================== *)
(** * Instances of the further properties                                 *)
(* ===================================================================== *)

Module MoreExamples.
Import JS Samples MoreSamples.

(** Decide a closed proposition by evaluation. *)
Ltac evaluate := apply (bool_decide_unpack _); vm_compute; exact I.

(** An instance of X1: opening [0xAA] on the empty ledger. *)
Lemma openOrder_accepts_witness :
  Derived.opens keccak (prover 1301 7) empty_storage (created_proof 0xAA 100)
    created_topics created_data created_words
  ∧ Ledger.getOrderInfo
      (Ledger.post (Ledger.transact
         (Ledger.openOrder keccak (prover 1301 7) (created_proof 0xAA 100))
         empty_storage))
      (Ledger.mload created_topics 32)
    = Derived.opened_record created_topics created_words.
Proof.
  assert (H : Derived.opens keccak (prover 1301 7) empty_storage
                (created_proof 0xAA 100) created_topics created_data created_words).
  { unfold Derived.opens. split_and!.
    - exists 1301, 7. vm_compute. reflexivity.
    - evaluate.
    - vm_compute. reflexivity.
    - vm_compute. reflexivity.
    - vm_compute. reflexivity. }
  split; [exact H|].
  exact (proj1 (proj2 (proj2 (LedgerMore.openOrder_accepts_exactly keccak
           (prover 1301 7) empty_storage (created_proof 0xAA 100))
           created_topics created_data created_words H))).
Defined.

(** An instance of X2: completing the open [0xAA]. *)
Lemma orderCompleted_accepts_witness :
  Derived.completes keccak (prover 84532 9) opened_storage
    (confirmation_proof 0xAA 100) confirmation_topics confirmation_data
    confirmation_words
  ∧ Ledger.isOrderCompleted
      (Ledger.post (Ledger.transact
         (Ledger.orderCompleted keccak (prover 84532 9) (confirmation_proof 0xAA 100))
         opened_storage))
      (Ledger.mload confirmation_topics 32)
    = true.
Proof.
  assert (H : Derived.completes keccak (prover 84532 9) opened_storage
                (confirmation_proof 0xAA 100) confirmation_topics confirmation_data
                confirmation_words).
  { unfold Derived.completes. split_and!.
    - exists 84532, 9. vm_compute. reflexivity.
    - evaluate.
    - vm_compute. reflexivity.
    - vm_compute. reflexivity.
    - vm_compute. reflexivity.
    - vm_compute. reflexivity. }
  split; [exact H|].
  exact (proj1 (proj2 (proj2 (LedgerMore.orderCompleted_accepts_exactly keccak
           (prover 84532 9) opened_storage (confirmation_proof 0xAA 100))
           confirmation_topics confirmation_data confirmation_words H))).
Defined.

(** An instance of X4: nothing changes the completed [0xAA]. *)
Lemma completed_is_final_witness :
  Ledger.state (Ledger.order_at completed_storage 0xAA) = Ledger.COMPLETED
  ∧ Ledger.order_at
      (Ledger.run keccak (prover 1301 7) completed_storage later_calls) 0xAA
    = Ledger.order_at completed_storage 0xAA.
Proof.
  assert (H : Ledger.state (Ledger.order_at completed_storage 0xAA)
              = Ledger.COMPLETED) by (vm_compute; reflexivity).
  split; [exact H|].
  exact (LedgerMore.completed_is_final keccak (prover 1301 7) completed_storage
           later_calls 0xAA H).
Defined.

(** An instance of X5: the proof that opened [0xAA] is refused later. *)
Lemma replayed_proof_witness :
  Ledger.reverted (Ledger.transact
    (Ledger.openOrder keccak (prover 1301 7) (created_proof 0xAA 100))
    empty_storage) = None
  ∧ Ledger.reverted (Ledger.transact
      (Ledger.openOrder keccak (prover 1301 7) (created_proof 0xAA 100))
      (Ledger.run keccak (prover 1301 7)
         (Ledger.post (Ledger.transact
            (Ledger.openOrder keccak (prover 1301 7) (created_proof 0xAA 100))
            empty_storage))
         later_calls))
    = Some "Order already exists"%string.
Proof.
  assert (H : Ledger.reverted (Ledger.transact
    (Ledger.openOrder keccak (prover 1301 7) (created_proof 0xAA 100))
    empty_storage) = None) by (vm_compute; reflexivity).
  split; [exact H|].
  exact (proj1 (LedgerMore.replayed_proof_rejected keccak (prover 1301 7)
                  empty_storage (created_proof 0xAA 100) later_calls) H).
Defined.

(** An instance of X6: the proof that opened [0xAA] cannot complete it. *)
Lemma proof_kinds_witness :
  keccak Ledger.OrderCreated_sig ≠ keccak Ledger.Confirmation_sig
  ∧ Ledger.reverted (Ledger.transact
      (Ledger.openOrder keccak (prover 1301 7) (created_proof 0xAA 100))
      empty_storage) = None
  ∧ (Ledger.reverted (Ledger.transact
       (Ledger.orderCompleted keccak (prover 1301 7) (created_proof 0xAA 100))
       opened_storage) = Some "Invalid topics length"%string
     ∨ Ledger.reverted (Ledger.transact
         (Ledger.orderCompleted keccak (prover 1301 7) (created_proof 0xAA 100))
         opened_storage) = Some "Invalid event signature"%string).
Proof.
  assert (H0 : keccak Ledger.OrderCreated_sig ≠ keccak Ledger.Confirmation_sig)
    by (vm_compute; discriminate).
  assert (H1 : Ledger.reverted (Ledger.transact
      (Ledger.openOrder keccak (prover 1301 7) (created_proof 0xAA 100))
      empty_storage) = None) by (vm_compute; reflexivity).
  split; [exact H0|]. split; [exact H1|].
  exact (proj1 (LedgerMore.proof_kinds_disjoint keccak (prover 1301 7)
                  empty_storage opened_storage (created_proof 0xAA 100) H0) H1).
Defined.

(** An instance of X7: the sample ledgers are tidy. *)
Lemma ledger_tidy_witness :
  Derived.tidy Derived.genesis
  ∧ Derived.tidy (Ledger.run keccak (prover 1301 7) Derived.genesis later_calls).
Proof.
  assert (H : Derived.tidy Derived.genesis).
  { intros id. unfold Ledger.order_at, Derived.genesis. simpl.
    rewrite lookup_empty. by split. }
  split; [exact H|].
  exact (proj2 (LedgerMore.ledger_records_tidy keccak (prover 1301 7) later_calls)
           Derived.genesis H).
Defined.

(** An instance of X10: the confirmation of [0xBB] comes before its
    creation and again after it. *)
Lemma orphan_confirmation_witness :
  parse orphan_confirmation
    = Executor.Parsed (confirmation_args "0xBB" "0x02" "0x08")
  ∧ Executor.mkConfirmationEvent no_BigInt (confirmation_args "0xBB" "0x02" "0x08")
    = Some orphan_event
  ∧ (Executor.Confirmation.id orphan_event
     ∉ Executor.pendingOrderIdsFromUnichain pending_AA)
  ∧ Executor.relays_for parse no_BigInt api_up "0xt9" 0
      [(Executor.Confirm, orphan_confirmation);
       (Executor.Creation, late_creation);
       (Executor.Confirm, orphan_confirmation)] pending_AA
    = 0%nat.
Proof.
  assert (H0 : parse orphan_confirmation
               = Executor.Parsed (confirmation_args "0xBB" "0x02" "0x08"))
    by reflexivity.
  assert (H1 : Executor.mkConfirmationEvent no_BigInt
                 (confirmation_args "0xBB" "0x02" "0x08") = Some orphan_event)
    by reflexivity.
  assert (H2 : Executor.Confirmation.id orphan_event
               ∉ Executor.pendingOrderIdsFromUnichain pending_AA) by evaluate.
  split_and!; [exact H0|exact H1|exact H2|].
  exact (ExecutorMore.orphan_confirmation_never_relayed parse no_BigInt api_up
           orphan_confirmation pending_AA _ orphan_event
           [(Executor.Creation, late_creation);
            (Executor.Confirm, orphan_confirmation)] H0 H1 H2).
Defined.

(** An instance of X11: a confirmation logged by the transaction of the
    creation event is skipped. *)
Lemma same_transaction_witness :
  Executor.transactionHash same_transaction_confirmation
    = Executor.transactionHash first_creation
  ∧ Executor.process parse no_BigInt api_up Executor.Confirm
      same_transaction_confirmation pending_AA
    = Normal pending_AA.
Proof.
  assert (H : Executor.transactionHash same_transaction_confirmation
              = Executor.transactionHash first_creation) by reflexivity.
  split; [exact H|].
  exact (ExecutorMore.same_transaction_events_skipped parse no_BigInt api_up fresh
           Executor.Creation Executor.Confirm first_creation
           same_transaction_confirmation [] H).
Defined.

(** An instance of X12: [0xAA] created and then confirmed. *)
Lemma round_trip_witness :
  (Executor.transactionHash first_creation ∉ Executor.processedTxs fresh)
  ∧ (Executor.transactionHash confirmation_AA ∉ Executor.processedTxs fresh)
  ∧ Executor.transactionHash first_creation ≠ Executor.transactionHash confirmation_AA
  ∧ parse first_creation = Executor.Parsed (created_args "0xAA" "0x62617374")
  ∧ created_args "0xAA" "0x62617374" !! 1%nat = Some (VStr "0x62617374")
  ∧ Executor.destination_matches (created_args "0xAA" "0x62617374") = true
  ∧ Executor.mkOrderCreatedEvent no_BigInt "0x62617374"
      (created_args "0xAA" "0x62617374") = Some event_AA
  ∧ parse confirmation_AA = Executor.Parsed (confirmation_args "0xAA" "0x02" "0x08")
  ∧ Executor.mkConfirmationEvent no_BigInt (confirmation_args "0xAA" "0x02" "0x08")
    = Some confirmed_AA
  ∧ Executor.Confirmation.id confirmed_AA = Executor.Created.id event_AA
  ∧ (VStr "0xAA" ∉
     Executor.pendingOrderIdsFromUnichain
       (Executor.run parse no_BigInt api_up
          [(Executor.Creation, first_creation); (Executor.Confirm, confirmation_AA)]
          fresh)).
Proof.
  assert (H0 : Executor.transactionHash first_creation ∉ Executor.processedTxs fresh)
    by evaluate.
  assert (H1 : Executor.transactionHash confirmation_AA ∉ Executor.processedTxs fresh)
    by evaluate.
  assert (H2 : Executor.transactionHash first_creation
               ≠ Executor.transactionHash confirmation_AA) by evaluate.
  assert (H3 : parse first_creation
               = Executor.Parsed (created_args "0xAA" "0x62617374")) by reflexivity.
  assert (H4 : created_args "0xAA" "0x62617374" !! 1%nat = Some (VStr "0x62617374"))
    by reflexivity.
  assert (H5 : Executor.destination_matches (created_args "0xAA" "0x62617374") = true)
    by reflexivity.
  assert (H6 : Executor.mkOrderCreatedEvent no_BigInt "0x62617374"
                 (created_args "0xAA" "0x62617374") = Some event_AA) by reflexivity.
  assert (H7 : parse confirmation_AA
               = Executor.Parsed (confirmation_args "0xAA" "0x02" "0x08"))
    by reflexivity.
  assert (H8 : Executor.mkConfirmationEvent no_BigInt
                 (confirmation_args "0xAA" "0x02" "0x08") = Some confirmed_AA)
    by reflexivity.
  assert (H9 : Executor.Confirmation.id confirmed_AA = Executor.Created.id event_AA)
    by reflexivity.
  split_and!; [exact H0|exact H1|exact H2|exact H3|exact H4|exact H5|exact H6|
               exact H7|exact H8|exact H9|].
  exact (proj1 (proj2 (ExecutorMore.creation_then_confirmation parse no_BigInt api_up
           fresh first_creation confirmation_AA _ _ "0x62617374" event_AA confirmed_AA
           H0 H1 H2 H3 H4 H5 H6 H7 H8 H9))).
Defined.

(** An instance of X14: no block after the watermark. *)
Lemma poll_noop_witness :
  (Executor.getBlockNumber (chain 5 [late_log]) = None
   ∨ (∃ currentBlock, Executor.getBlockNumber (chain 5 [late_log]) = Some currentBlock
                      ∧ currentBlock ≤ 7)
   ∨ Executor.getEvent spoke "OrderCreated" = None
   ∨ (∀ f, Executor.getLogs (chain 5 [late_log]) f = None))
  ∧ Executor.after
      (Executor.pollForEvents (chain 5 [late_log]) spoke "OrderCreated"
         (Executor.processOrderCreatedEvent parse no_BigInt api_up) 7 fresh)
    = fresh.
Proof.
  assert (H : Executor.getBlockNumber (chain 5 [late_log]) = None
   ∨ (∃ currentBlock, Executor.getBlockNumber (chain 5 [late_log]) = Some currentBlock
                      ∧ currentBlock ≤ 7)
   ∨ Executor.getEvent spoke "OrderCreated" = None
   ∨ (∀ f, Executor.getLogs (chain 5 [late_log]) f = None)).
  { right. left. exists 5. split; [reflexivity|lia]. }
  split; [exact H|].
  exact (proj1 (proj2 (ExecutorMore.poll_without_logs_is_noop (chain 5 [late_log])
           spoke "OrderCreated"
           (Executor.processOrderCreatedEvent parse no_BigInt api_up) 7 fresh H))).
Defined.

(** An instance of X26: the creation and the confirmation of [0xAA] found
    in one tick. *)
Lemma tick_witness :
  Executor.getBlockNumber (chain 20 [first_creation]) = Some 20
  ∧ 10 < 20
  ∧ Executor.getEvent spoke "OrderCreated" = Some "0xtopic"%string
  ∧ Executor.getLogs (chain 20 [first_creation])
      (Executor.mkFilter (10 + 1) 20 (Executor.target spoke) ["0xtopic"%string])
    = Some [first_creation]
  ∧ Executor.getBlockNumber (chain 30 [confirmation_AA]) = Some 30
  ∧ 10 < 30
  ∧ Executor.getEvent spoke "Confirmation" = Some "0xtopic"%string
  ∧ Executor.getLogs (chain 30 [confirmation_AA])
      (Executor.mkFilter (10 + 1) 30 (Executor.target spoke) ["0xtopic"%string])
    = Some [confirmation_AA]
  ∧ (Executor.tick parse no_BigInt api_up (chain 20 [first_creation])
       (chain 30 [confirmation_AA]) spoke spoke
       (Executor.mkWatermarks 10 10) fresh).1.1
    = Executor.mkWatermarks 20 30.
Proof.
  assert (H0 : Executor.getBlockNumber (chain 20 [first_creation]) = Some 20)
    by reflexivity.
  assert (H1 : 10 < 20) by lia.
  assert (H2 : Executor.getEvent spoke "OrderCreated" = Some "0xtopic"%string)
    by reflexivity.
  assert (H3 : Executor.getLogs (chain 20 [first_creation])
      (Executor.mkFilter (10 + 1) 20 (Executor.target spoke) ["0xtopic"%string])
    = Some [first_creation]) by reflexivity.
  assert (H4 : Executor.getBlockNumber (chain 30 [confirmation_AA]) = Some 30)
    by reflexivity.
  assert (H5 : 10 < 30) by lia.
  assert (H6 : Executor.getEvent spoke "Confirmation" = Some "0xtopic"%string)
    by reflexivity.
  assert (H7 : Executor.getLogs (chain 30 [confirmation_AA])
      (Executor.mkFilter (10 + 1) 30 (Executor.target spoke) ["0xtopic"%string])
    = Some [confirmation_AA]) by reflexivity.
  split_and!; [exact H0|exact H1|exact H2|exact H3|exact H4|exact H5|exact H6|
               exact H7|].
  pose proof (ExecutorMore.tick_delivers_unichain_then_base parse no_BigInt api_up
                (chain 20 [first_creation]) (chain 30 [confirmation_AA]) spoke spoke
                (Executor.mkWatermarks 10 10) fresh 20 30 "0xtopic" "0xtopic"
                [first_creation] [confirmation_AA] H0 H1 H2 H3 H4 H5 H6 H7) as H.
  destruct (Executor.tick parse no_BigInt api_up (chain 20 [first_creation])
              (chain 30 [confirmation_AA]) spoke spoke
              (Executor.mkWatermarks 10 10) fresh) as [[w' r1] r2].
  exact (proj1 H).
Defined.

(** An instance of X17: a printed ReclaimReady event delivered again after
    another event. *)
Lemma hub_event_once_witness :
  is_Some (Listener.args reclaim_0)
  ∧ Listener.processHubEvent no_BigInt reclaim_0 Listener.initial
    = Normal after_reclaim_0
  ∧ Listener.processHubEvent no_BigInt reclaim_0
      (final (Listener.deliver no_BigInt [reclaim_1] after_reclaim_0).1)
    = Normal (final (Listener.deliver no_BigInt [reclaim_1] after_reclaim_0).1).
Proof.
  assert (H0 : is_Some (Listener.args reclaim_0)) by (by eexists).
  assert (H1 : Listener.processHubEvent no_BigInt reclaim_0 Listener.initial
               = Normal after_reclaim_0) by (vm_compute; reflexivity).
  split; [exact H0|]. split; [exact H1|].
  exact (ListenerMore.hub_event_handled_once no_BigInt reclaim_0 Listener.initial
           after_reclaim_0 [reclaim_1] H0 H1).
Defined.

(** An instance of X18: two ReclaimReady events of one transaction. *)
Lemma hub_one_transaction_witness :
  Listener.transactionHash reclaim_0 = Listener.transactionHash reclaim_1
  ∧ Listener.index reclaim_0 ≠ Listener.index reclaim_1
  ∧ (Derived.eventUniqueId reclaim_0 ∉ Listener.processedEventIds Listener.initial)
  ∧ (Derived.eventUniqueId reclaim_1 ∉ Listener.processedEventIds Listener.initial)
  ∧ Listener.args reclaim_0 = Some reclaim_args
  ∧ Derived.printer no_BigInt (Listener.eventName reclaim_0)
    = Some (Listener.mkReclaimReady no_BigInt)
  ∧ Listener.mkReclaimReady no_BigInt reclaim_args = Some reclaim_printed
  ∧ Listener.console
      (final (Listener.deliver no_BigInt [reclaim_0; reclaim_1] Listener.initial).1)
    = Listener.console Listener.initial ++ [reclaim_printed; reclaim_printed].
Proof.
  assert (H0 : Listener.transactionHash reclaim_0 = Listener.transactionHash reclaim_1)
    by reflexivity.
  assert (H1 : Listener.index reclaim_0 ≠ Listener.index reclaim_1) by evaluate.
  assert (H2 : Derived.eventUniqueId reclaim_0
               ∉ Listener.processedEventIds Listener.initial) by evaluate.
  assert (H3 : Derived.eventUniqueId reclaim_1
               ∉ Listener.processedEventIds Listener.initial) by evaluate.
  assert (H4 : Listener.args reclaim_0 = Some reclaim_args) by reflexivity.
  assert (H5 : Derived.printer no_BigInt (Listener.eventName reclaim_0)
               = Some (Listener.mkReclaimReady no_BigInt)) by reflexivity.
  assert (H6 : Listener.mkReclaimReady no_BigInt reclaim_args = Some reclaim_printed)
    by (vm_compute; reflexivity).
  split_and!; [exact H0|exact H1|exact H2|exact H3|exact H4|exact H5|exact H6|].
  exact (proj2 (proj2 (ListenerMore.hub_events_of_one_transaction no_BigInt
           reclaim_0 reclaim_1 Listener.initial reclaim_args reclaim_args _ _
           reclaim_printed reclaim_printed H0 H1 H2 H3 H4 H5 H6 H4 H5 H6))).
Defined.

(** An instance of X19: the first poll of the hub at height 1000. *)
Lemma hub_watermark_witness :
  Listener.initialised (hub 1000) = true
  ∧ Listener.has_filters (hub 1000) = true
  ∧ (∀ n, n ∈ Listener.hub_filters → Listener.filter_available (hub 1000) n = true)
  ∧ Listener.getBlockNumber (hub 1000) = Some 1000
  ∧ Listener.lastPolledBlock (Derived.effective 1000 Listener.initial) < 1000
  ∧ mapM (λ n, Listener.queryFilter (hub 1000) n
                 (Listener.lastPolledBlock (Derived.effective 1000 Listener.initial) + 1)
                 1000) Listener.hub_filters
    = Some hub_answers
  ∧ Listener.lastPolledBlock
      (Listener.after (Listener.pollForHubEvents no_BigInt (hub 1000) Listener.initial))
    = (if threw (Listener.deliver no_BigInt
                   (Listener.sortEvents (concat hub_answers))
                   (Derived.effective 1000 Listener.initial)).1
       then Listener.lastPolledBlock (Derived.effective 1000 Listener.initial)
       else 1000).
Proof.
  assert (H0 : Listener.initialised (hub 1000) = true) by reflexivity.
  assert (H1 : Listener.has_filters (hub 1000) = true) by reflexivity.
  assert (H2 : ∀ n, n ∈ Listener.hub_filters →
                    Listener.filter_available (hub 1000) n = true)
    by (intros n _; reflexivity).
  assert (H3 : Listener.getBlockNumber (hub 1000) = Some 1000) by reflexivity.
  assert (H4 : Listener.lastPolledBlock (Derived.effective 1000 Listener.initial)
               < 1000) by (vm_compute; reflexivity).
  assert (H5 : mapM (λ n, Listener.queryFilter (hub 1000) n
                 (Listener.lastPolledBlock (Derived.effective 1000 Listener.initial) + 1)
                 1000) Listener.hub_filters
    = Some hub_answers) by (vm_compute; reflexivity).
  split_and!; [exact H0|exact H1|exact H2|exact H3|exact H4|exact H5|].
  exact (proj1 (ListenerMore.hub_watermark_after_batch no_BigInt (hub 1000)
                  Listener.initial 1000 hub_answers H0 H1 H2 H3 H4 H5)).
Defined.

(** An instance of X20: a poll of the hub from the unset watermark. *)
Lemma hub_monotone_witness :
  -1 ≤ Listener.lastPolledBlock Listener.initial
  ∧ Listener.lastPolledBlock Listener.initial
    ≤ Listener.lastPolledBlock
        (Listener.after (Listener.pollForHubEvents no_BigInt (hub 1000) Listener.initial)).
Proof.
  assert (H : -1 ≤ Listener.lastPolledBlock Listener.initial) by (simpl; lia).
  split; [exact H|].
  exact (proj1 (ListenerMore.hub_watermark_monotone no_BigInt (hub 1000)
                  Listener.initial H)).
Defined.


(** An instance of X22: the same two events answered in either order. *)
Lemma sort_independent_witness :
  [reclaim_1; reclaim_0] ≡ₚ [reclaim_0; reclaim_1]
  ∧ (∀ x y, x ∈ [reclaim_1; reclaim_0] → y ∈ [reclaim_1; reclaim_0] →
       Listener.blockNumber x = Listener.blockNumber y →
       Listener.index x = Listener.index y → x = y)
  ∧ Listener.sortEvents [reclaim_1; reclaim_0]
    = Listener.sortEvents [reclaim_0; reclaim_1].
Proof.
  assert (H0 : [reclaim_1; reclaim_0] ≡ₚ [reclaim_0; reclaim_1]) by apply perm_swap.
  assert (H1 : ∀ x y, x ∈ [reclaim_1; reclaim_0] → y ∈ [reclaim_1; reclaim_0] →
       Listener.blockNumber x = Listener.blockNumber y →
       Listener.index x = Listener.index y → x = y).
  { intros x y Hx Hy _ Hi.
    apply elem_of_cons in Hx as [->|Hx]; [|apply list_elem_of_singleton in Hx as ->];
      (apply elem_of_cons in Hy as [->|Hy]; [|apply list_elem_of_singleton in Hy as ->]);
      first [reflexivity | discriminate Hi]. }
  split; [exact H0|]. split; [exact H1|].
  exact (ListenerMore.sort_independent_of_source_order _ _ H0 H1).
Defined.

(** An instance of X25: a broken event between two good ones. *)
Lemma hub_batch_aborts_witness :
  threw (Listener.deliver no_BigInt [reclaim_0] Listener.initial).1 = false
  ∧ (Derived.eventUniqueId reclaim_broken
     ∉ Listener.processedEventIds
         (final (Listener.deliver no_BigInt [reclaim_0] Listener.initial).1))
  ∧ Listener.args reclaim_broken = Some (delete "timestamp"%string reclaim_args)
  ∧ Derived.printer no_BigInt (Listener.eventName reclaim_broken)
    = Some (Listener.mkReclaimReady no_BigInt)
  ∧ Listener.mkReclaimReady no_BigInt (delete "timestamp"%string reclaim_args) = None
  ∧ Listener.deliver no_BigInt ([reclaim_0] ++ reclaim_broken :: [reclaim_1])
      Listener.initial
    = (Throws (final (Listener.deliver no_BigInt [reclaim_0] Listener.initial).1),
       (Listener.deliver no_BigInt [reclaim_0] Listener.initial).2 ++ [reclaim_broken]).
Proof.
  assert (H0 : threw (Listener.deliver no_BigInt [reclaim_0] Listener.initial).1
               = false) by (vm_compute; reflexivity).
  assert (H1 : Derived.eventUniqueId reclaim_broken
     ∉ Listener.processedEventIds
         (final (Listener.deliver no_BigInt [reclaim_0] Listener.initial).1))
    by evaluate.
  assert (H2 : Listener.args reclaim_broken
               = Some (delete "timestamp"%string reclaim_args)) by reflexivity.
  assert (H3 : Derived.printer no_BigInt (Listener.eventName reclaim_broken)
               = Some (Listener.mkReclaimReady no_BigInt)) by reflexivity.
  assert (H4 : Listener.mkReclaimReady no_BigInt
                 (delete "timestamp"%string reclaim_args) = None)
    by (vm_compute; reflexivity).
  split_and!; [exact H0|exact H1|exact H2|exact H3|exact H4|].
  exact (ListenerMore.hub_batch_aborts_at_failure no_BigInt [reclaim_0] [reclaim_1]
           reclaim_broken Listener.initial _ _ H0 H1 H2 H3 H4).
Defined.

(** The proof arrives with the fourth query. *)
Example slow_oracle_answers :
  Scripts.waitForProof slow_oracle = inr ("cHJvb2Y="%string, 4%nat).
Proof. reflexivity. Qed.

(** The RPC URL of Base Sepolia from [BASE_SEPOLIA_RPC]; an empty
    [CHAIN_84532_RPC] is passed over. *)
Example rpc_url_by_name :
  Scripts.getRpcUrl Scripts.CHAIN_ID_MAP_complete
    {[ "CHAIN_84532_RPC"%string := ""%string;
       "BASE_SEPOLIA_RPC"%string := "https://sepolia.base.org"%string ]}
    (Some 84532)
  = inr "https://sepolia.base.org"%string.
Proof. by vm_compute. Qed.

End MoreExamples.
